(** * FoxyProxy configuration generator (foxyproxy-generator.js)

    A shallow embedding of the class [FoxyProxyGenerator] and of the
    JavaScript primitives it calls, followed by the properties of the
    generator that the specification states.

    Conventions of the embedding.
    - A JavaScript string is the list of its UTF-16 code units, so that
      [length] is the [.length] of the source.
    - A JavaScript number is [NaN] or an integer, which stands for
      itself: that is exact for the safe integers (below 2^53 in absolute
      value).  Fractions and infinities are left out.  [ToString] of an
      integer is its plain decimal rendering, which is what the engine
      prints below 10^21.
    - The fields of the template and of the credentials hold primitive
      values (undefined, null, booleans, numbers, strings).
    - Methods run in a state and exception monad over a [World]: the
      generator object, the two randomness sources, the clock and the
      console. *)

From Stdlib Require Import List ZArith NArith Lia String Ascii Bool.
Import ListNotations.
Local Open Scope Z_scope.

(** ** JavaScript values *)

Module JS.

Definition jstring := list N.

Definition lit (s : string) : jstring :=
  map N_of_ascii (list_ascii_of_string s).

Definition jstring_eqb (a b : jstring) : bool :=
  if list_eq_dec N.eq_dec a b then true else false.

Inductive number :=
| NaN
| Int (z : Z).

Inductive prim :=
| Undefined
| Null
| Bool (b : bool)
| Num (n : number)
| Str (s : jstring).

(** Decimal digits of a natural number, most significant first. *)
Fixpoint digits_aux (fuel : nat) (n : N) (acc : jstring) : jstring :=
  match fuel with
  | O => acc
  | S f =>
      let acc' := (48 + n mod 10)%N :: acc in
      if (n <? 10)%N then acc' else digits_aux f (n / 10) acc'
  end.

Definition digits (n : N) : jstring :=
  digits_aux (S (N.to_nat (N.log2 n))) n [].

Definition Z_to_string (z : Z) : jstring :=
  if z <? 0 then 45%N :: digits (Z.to_N (- z)) else digits (Z.to_N z).

(** [String(n)] for [NaN] and for the integers that this model holds.
    The engine prints an integer in plain decimal below [1e21] and in
    exponent form from there on; a statement that reads the string of a
    number is therefore made for safe integers. *)
Definition Number_toString (n : number) : jstring :=
  match n with
  | NaN => lit "NaN"
  | Int z => Z_to_string z
  end.

(** [ToString], as applied by template literals and by [parseInt]. *)
Definition ToString (v : prim) : jstring :=
  match v with
  | Undefined => lit "undefined"
  | Null => lit "null"
  | Bool true => lit "true"
  | Bool false => lit "false"
  | Num n => Number_toString n
  | Str s => s
  end.

(** [ToBoolean], as applied by [!], [||] and [&&]. *)
Definition ToBoolean (v : prim) : bool :=
  match v with
  | Undefined | Null => false
  | Bool b => b
  | Num NaN => false
  | Num (Int z) => negb (z =? 0)
  | Str s => match s with [] => false | _ => true end
  end.

(** Strict equality with a string literal: [v === "..."]. *)
Definition strict_eq_str (v : prim) (s : jstring) : bool :=
  match v with
  | Str t => jstring_eqb t s
  | _ => false
  end.

(** White space and line terminators, the code units that [trim] and
    [parseInt] strip. *)
Definition is_white (c : N) : bool :=
  ((c =? 9) || (c =? 10) || (c =? 11) || (c =? 12) || (c =? 13) ||
   (c =? 32) || (c =? 160) || (c =? 5760) ||
   ((8192 <=? c) && (c <=? 8202)) ||
   (c =? 8232) || (c =? 8233) || (c =? 8239) || (c =? 8287) ||
   (c =? 12288) || (c =? 65279))%N.

Fixpoint trimStart (s : jstring) : jstring :=
  match s with
  | c :: r => if is_white c then trimStart r else s
  | [] => []
  end.

Definition trimEnd (s : jstring) : jstring := rev (trimStart (rev s)).

Definition trim (s : jstring) : jstring := trimEnd (trimStart s).

Definition is_digit (c : N) : bool := ((48 <=? c) && (c <=? 57))%N.

(** The longest prefix of decimal digits, and what follows it. *)
Fixpoint span_digits (s : jstring) : jstring * jstring :=
  match s with
  | c :: r =>
      if is_digit c then let (d, k) := span_digits r in (c :: d, k)
      else ([], s)
  | [] => ([], [])
  end.

Definition digits_value (d : jstring) : N :=
  fold_left (fun v c => (v * 10 + (c - 48))%N) d 0%N.

(** [parseInt(string, 10)]: leading white space, an optional sign, then
    the longest run of decimal digits; [NaN] when that run is empty.  The
    value of the run is kept exactly; the engine rounds it to the nearest
    double, which is the same number for a safe integer. *)
Definition parseInt_string (s : jstring) : number :=
  let s1 := trimStart s in
  let (neg, s2) :=
    match s1 with
    | 45%N :: r => (true, r)
    | 43%N :: r => (false, r)
    | _ => (false, s1)
    end in
  match fst (span_digits s2) with
  | [] => NaN
  | d => let m := Z.of_N (digits_value d) in Int (if neg then - m else m)
  end.

Definition parseInt (v : prim) : number := parseInt_string (ToString v).

(** [a || b] on numbers. *)
Definition or_number (a b : number) : number :=
  if ToBoolean (Num a) then a else b.

Definition Math_min (a b : number) : number :=
  match a, b with
  | Int x, Int y => Int (Z.min x y)
  | _, _ => NaN
  end.

Definition Math_max (a b : number) : number :=
  match a, b with
  | Int x, Int y => Int (Z.max x y)
  | _, _ => NaN
  end.

(** [a % b] on integers: the remainder takes the sign of the dividend,
    and a zero divisor gives [NaN]. *)
Definition rem (a b : Z) : number :=
  if b =? 0 then NaN else Int (Z.rem a b).

(** [array[i]] on an array of strings. *)
Definition array_get (a : list jstring) (i : number) : prim :=
  match i with
  | NaN => Undefined
  | Int z =>
      if z <? 0 then Undefined
      else match nth_error a (Z.to_nat z) with
           | Some s => Str s
           | None => Undefined
           end
  end.

(** [s.charAt(i)] for an integer [i]. *)
Definition charAt (s : jstring) (i : Z) : jstring :=
  if i <? 0 then []
  else match nth_error s (Z.to_nat i) with
       | Some c => [c]
       | None => []
       end.

(** [s.length] where [s] is any primitive: a number for a string,
    [undefined] for the others. *)
Definition length_of (v : prim) : option Z :=
  match v with
  | Str s => Some (Z.of_nat (List.length s))
  | _ => None
  end.

(** [x < k] where [x] is a length or [undefined]. *)
Definition lt_opt (x : option Z) (k : Z) : bool :=
  match x with
  | Some n => n <? k
  | None => false
  end.

(** [s.slice(-k)] for a positive [k]: the last [k] code units. *)
Definition slice_last (k : nat) (s : jstring) : jstring :=
  skipn (List.length s - k)%nat s.

(** [s.padStart(2, "0")]. *)
Definition padStart2 (s : jstring) : jstring :=
  match s with
  | [] => lit "00"
  | [c] => [48%N; c]
  | _ => s
  end.

End JS.

Import JS.

(** ** The generator object *)

Module Config.
(** [this.config] *)
Record t := mk {
  endpoint : prim;
  port : prim;
  region : prim;
  proxyCount : prim
}.
End Config.

Module Options.
(** The argument of the constructor: any of the four keys may be
    missing. *)
Record t := mk {
  endpoint : option prim;
  port : option prim;
  region : option prim;
  proxyCount : option prim
}.
Definition empty : t := mk None None None None.
End Options.

Module Credentials.
(** [this.credentials] *)
Record t := mk {
  username : prim;
  password : prim
}.
End Credentials.

Record Generator := mkGenerator {
  config : Config.t;
  credentials : Credentials.t;
  colors : list jstring;
  icons : list jstring
}.


Definition set_credentials (c : Credentials.t) (g : Generator) : Generator :=
  mkGenerator (config g) c (colors g) (icons g).


Module Proxy.
(** The object literal returned by [generateProxyConfig]. *)
Record t := mk {
  active : bool;
  title : jstring;
  type : jstring;
  hostname : prim;
  port : number;
  username : jstring;
  password : prim;
  cc : jstring;
  city : jstring;
  color : prim;
  pac : jstring;
  pacString : jstring;
  proxyDNS : bool;
  include : list prim;
  exclude : list prim;
  tabProxy : list prim
}.
End Proxy.

Module Commands.
Record t := mk {
  setProxy : jstring;
  setTabProxy : jstring;
  includeHost : jstring;
  excludeHost : jstring
}.
End Commands.

Module Full.
(** The object literal returned by [generateFullConfig]. *)
Record t := mk {
  mode : jstring;
  sync : bool;
  autoBackup : bool;
  passthrough : jstring;
  theme : jstring;
  container : list (jstring * prim);
  commands : Commands.t;
  data : list Proxy.t
}.
End Full.

Module Info.
(** The object literal returned by [getConfigInfo]. *)
Record t := mk {
  endpoint : prim;
  port : prim;
  region : prim;
  proxyCount : prim;
  hasCredentials : bool
}.
End Info.

Definition default_colors : list jstring :=
  map lit
    [ "#FF5722"; "#FF9800"; "#FFC107"; "#FFEB3B"; "#CDDC39";
      "#8BC34A"; "#4CAF50"; "#009688"; "#00BCD4"; "#03A9F4";
      "#2196F3"; "#3F51B5"; "#1E90FF"; "#FF69B4"; "#FF8C00";
      "#9C27B0"; "#E91E63"; "#795548"; "#607D8B"; "#455A64" ]%string.

(** The icon glyphs, as UTF-16 code units; the tenth is the empty
    string. *)
Definition default_icons : list jstring :=
  [ [55356; 57119]; (* U+1F31F *)
    [55357; 56622]; (* U+1F52E *)
    [55357; 56960]; (* U+1F680 *)
    [55356; 57096]; (* U+1F308 *)
    [9889];         (* U+26A1 *)
    [55357; 56613]; (* U+1F525 *)
    [55357; 56462]; (* U+1F48E *)
    [55356; 57098]; (* U+1F30A *)
    [55357; 56630]; (* U+1F536 *)
    [];
    [55357; 57001]; (* U+1F6A9 *)
    [11088];        (* U+2B50 *)
    [55356; 57263]; (* U+1F3AF *)
    [55356; 57256]; (* U+1F3A8 *)
    [55356; 57258]; (* U+1F3AA *)
    [55356; 57261]; (* U+1F3AD *)
    [55356; 57272]; (* U+1F3B8 *)
    [55356; 57273]; (* U+1F3B9 *)
    [55356; 57274]; (* U+1F3BA *)
    [55356; 57275]  (* U+1F3BB *) ]%N.

Definition default_config : Config.t :=
  Config.mk (Str (lit "na.proxys5.net")) (Str (lit "6200"))
            (Str (lit "US")) (Num (Int 10)).

Definition or_default (o : option prim) (d : prim) : prim :=
  match o with
  | Some v => v
  | None => d
  end.

(** [Object.assign(defaults, config)]: a key of [config] overrides the
    default, also when its value is [undefined]. *)
Definition Object_assign (d : Config.t) (o : Options.t) : Config.t :=
  Config.mk (or_default (Options.endpoint o) (Config.endpoint d))
            (or_default (Options.port o) (Config.port d))
            (or_default (Options.region o) (Config.region d))
            (or_default (Options.proxyCount o) (Config.proxyCount d)).

Definition constructor (o : Options.t) : Generator :=
  let c := Object_assign default_config o in
  let c :=
    if strict_eq_str (Config.region c) (lit "USA")
    then Config.mk (Config.endpoint c) (Config.port c) (Str (lit "US"))
                   (Config.proxyCount c)
    else c in
  mkGenerator c (Credentials.mk (Str []) (Str [])) default_colors
              default_icons.

(** ** The world a method runs in *)

Inductive exn :=
| Error (message : jstring)
| TypeError (message : jstring).

Definition message (e : exn) : jstring :=
  match e with
  | Error m => m
  | TypeError m => m
  end.

Inductive log_entry :=
| Log (text : jstring)
| LogError (text : jstring) (e : exn).

(** The local-time fields that [formatDate] reads from [new Date()]. *)
Record Date := mkDate {
  getFullYear : Z;
  getMonth : Z;
  getDate : Z;
  getHours : Z;
  getMinutes : Z
}.

Record World := mkWorld {
  self : Generator;       (* [this] *)
  secure : bool;          (* is [crypto.getRandomValues] there? *)
  entropy : nat -> N;     (* what the random source delivers, in order *)
  drawn : nat;            (* how many of them were consumed *)
  clock : Date;
  console : list log_entry
}.

Definition M (A : Type) : Type := World -> (exn + A) * World.

Definition ret {A} (a : A) : M A := fun w => (inr a, w).

Definition bind {A B} (m : M A) (k : A -> M B) : M B :=
  fun w =>
    match m w with
    | (inl e, w') => (inl e, w')
    | (inr a, w') => k a w'
    end.

Definition throw {A} (e : exn) : M A := fun w => (inl e, w).

Definition try_catch {A} (m : M A) (h : exn -> M A) : M A :=
  fun w =>
    match m w with
    | (inl e, w') => h e w'
    | (inr a, w') => (inr a, w')
    end.

Notation "x <- m ;; k" := (bind m (fun x => k))
  (at level 61, m at next level, right associativity).

Definition this : M Generator := fun w => (inr (self w), w).

Definition put_self (g : Generator) (w : World) : World :=
  mkWorld g (secure w) (entropy w) (drawn w) (clock w) (console w).

Definition set_this (g : Generator) : M unit :=
  fun w => (inr tt, put_self g w).

(** A method that only reads [this] and returns or throws. *)
Definition reading {A} (f : Generator -> exn + A) : M A :=
  fun w => (f (self w), w).

Definition emit (e : log_entry) : M unit :=
  fun w =>
    (inr tt,
     mkWorld (self w) (secure w) (entropy w) (drawn w) (clock w)
             (console w ++ [e])).

Definition console_log (text : jstring) : M unit := emit (Log text).

Definition console_error (text : jstring) (e : exn) : M unit :=
  emit (LogError text e).

Definition has_crypto : M bool := fun w => (inr (secure w), w).

Definition advance (k : nat) (w : World) : World :=
  mkWorld (self w) (secure w) (entropy w) (drawn w + k)%nat (clock w)
          (console w).

(** [crypto.getRandomValues(new Uint8Array(n))]: [n] fresh values, each
    stored as a byte. *)
Definition getRandomValues (n : nat) : M (list Z) :=
  fun w =>
    (inr (map (fun k => Z.of_N (entropy w (drawn w + k)%nat) mod 256)
              (seq 0 n)),
     advance n w).

(** [Math.random()]: a fresh value [k / 2^53] with [0 <= k < 2^53],
    returned as its numerator. *)
Definition Math_random : M Z :=
  fun w => (inr (Z.of_N (entropy w (drawn w)) mod 2 ^ 53), advance 1 w).

(** [Math.floor(x * m)] for [x = k / 2^53], the product taken exactly.
    The engine rounds the product to a double before it takes the floor,
    so its index can be the next one; what is proved of an index drawn
    this way is that it is in range, not which one it is. *)
Definition floor_times (k m : Z) : Z := (k * m) / 2 ^ 53.

Definition now : M Date := fun w => (inr (clock w), w).

(** [for (let i = 0; i < bound; i++) body], threading the value the
    body updates. *)
Fixpoint for_from {S} (n : nat) (i : Z) (body : Z -> S -> M S) (s : S)
  : M S :=
  match n with
  | O => ret s
  | Datatypes.S n' => s' <- body i s ;; for_from n' (i + 1) body s'
  end.

Definition iterations (bound : number) : nat :=
  match bound with
  | NaN => O
  | Int c => Z.to_nat c
  end.

Definition for_upto {S} (bound : number) (body : Z -> S -> M S) (s : S)
  : M S :=
  for_from (iterations bound) 0 body s.

(** ** The methods of [FoxyProxyGenerator] *)

Definition chars : jstring :=
  lit "abcdefghijklmnopqrstuvwxyzABCDEFGHIJKLMNOPQRSTUVWXYZ0123456789".

Definition chars_length : Z := Z.of_nat (List.length chars).

(** [array[i]] on the byte array. *)
Definition byte_at (array : list Z) (i : Z) : Z := nth (Z.to_nat i) array 0.

Definition generateSessionId : M jstring :=
  let result := [] in
  ok <- has_crypto ;;
  if ok then
    array <- getRandomValues 8 ;;
    for_upto (Int 8)
      (fun i result =>
         ret (result ++ charAt chars (Z.rem (byte_at array i) chars_length)))
      result
  else
    for_upto (Int 8)
      (fun i result =>
         x <- Math_random ;;
         ret (result ++ charAt chars (floor_times x chars_length)))
      result.

Definition formatDate : M jstring :=
  date <- now ;;
  let year := slice_last 2 (Z_to_string (getFullYear date)) in
  let month := padStart2 (Z_to_string (getMonth date + 1)) in
  let day := padStart2 (Z_to_string (getDate date)) in
  let hours := padStart2 (Z_to_string (getHours date)) in
  let minutes := padStart2 (Z_to_string (getMinutes date)) in
  ret (year ++ month ++ day ++ lit "-" ++ hours ++ minutes).

Definition msg_required : jstring :=
  lit "Username and password are required".
Definition msg_username_short : jstring :=
  lit "Username must be at least 3 characters long".
Definition msg_password_short : jstring :=
  lit "Password must be at least 6 characters long".

Definition validateCredentials (g : Generator) : exn + bool :=
  let c := credentials g in
  if negb (ToBoolean (Credentials.username c))
     || negb (ToBoolean (Credentials.password c))
  then inl (Error msg_required)
  else if lt_opt (length_of (Credentials.username c)) 3
  then inl (Error msg_username_short)
  else if lt_opt (length_of (Credentials.password c)) 6
  then inl (Error msg_password_short)
  else inr true.

(** The object literal that [generateProxyConfig] returns, for the
    session identifier it drew. *)
Definition proxy_record (g : Generator) (index : Z) (sessionId : jstring)
  : Proxy.t :=
  let colorIndex := rem index (Z.of_nat (List.length (colors g))) in
  let iconIndex := rem index (Z.of_nat (List.length (icons g))) in
  let authUsername :=
    ToString (Credentials.username (credentials g)) ++ lit "-region-"
    ++ ToString (Config.region (config g)) ++ lit "-sessid-"
    ++ sessionId ++ lit "-sessTime-120" in
  {|
    Proxy.active := true;
    Proxy.title :=
      Z_to_string (index + 1) ++ lit " "
      ++ ToString (array_get (icons g) iconIndex);
    Proxy.type := lit "socks5";
    Proxy.hostname := Config.endpoint (config g);
    Proxy.port := parseInt (Config.port (config g));
    Proxy.username := authUsername;
    Proxy.password := Credentials.password (credentials g);
    Proxy.cc := [];
    Proxy.city := [];
    Proxy.color := array_get (colors g) colorIndex;
    Proxy.pac := [];
    Proxy.pacString := [];
    Proxy.proxyDNS := true;
    Proxy.include := [];
    Proxy.exclude := [];
    Proxy.tabProxy := []
  |}.

Definition generateProxyConfig (index : Z) : M Proxy.t :=
  _ <- reading validateCredentials ;;
  dateStr <- formatDate ;;
  sessionId <- generateSessionId ;;
  g <- this ;;
  ret (proxy_record g index sessionId).

(** [Math.max(1, Math.min(50, parseInt(proxyCount, 10) || 10))] *)
Definition clamp_count (proxyCount : prim) : number :=
  Math_max (Int 1)
    (Math_min (Int 50) (or_number (parseInt proxyCount) (Int 10))).

(** The object literal that [generateFullConfig] returns. *)
Definition full_record (g : Generator) (proxyConfigs : list Proxy.t)
  : Full.t :=
  {|
    Full.mode :=
      ToString (Config.endpoint (config g)) ++ lit ":"
      ++ ToString (Config.port (config g));
    Full.sync := false;
    Full.autoBackup := false;
    Full.passthrough := [];
    Full.theme := [];
    Full.container := [];
    Full.commands := Commands.mk [] [] [] [];
    Full.data := proxyConfigs
  |}.

(** The body of the loop of [generateFullConfig]: one record is built
    and pushed, and a failure is logged and thrown again with the number
    of the record. *)
Definition push_config (i : Z) (proxyConfigs : list Proxy.t)
  : M (list Proxy.t) :=
  try_catch
    (r <- generateProxyConfig i ;; ret (proxyConfigs ++ [r]))
    (fun error =>
       _ <- console_error
              (lit "Error generating proxy config " ++ Z_to_string i
               ++ lit ":") error ;;
       throw (Error (lit "Failed to generate proxy configuration "
                     ++ Z_to_string (i + 1) ++ lit ": "
                     ++ message error))).

Definition generateFullConfig : M Full.t :=
  _ <- reading validateCredentials ;;
  g <- this ;;
  let proxyCount := clamp_count (Config.proxyCount (config g)) in
  _ <- console_log (lit "Generating " ++ Number_toString proxyCount
                    ++ lit " proxy configurations") ;;
  proxyConfigs <- for_upto proxyCount push_config [] ;;
  g <- this ;;
  ret (full_record g proxyConfigs).

(** [v.trim()]: only a string has the method. *)
Definition call_trim (name : jstring) (v : prim) : M prim :=
  match v with
  | Str s => ret (Str (trim s))
  | _ => throw (TypeError (name ++ lit ".trim is not a function"))
  end.

Definition updateCredentials (username password : prim) : M bool :=
  if negb (ToBoolean username) || negb (ToBoolean password)
  then throw (Error (lit "Both username and password are required"))
  else
    u <- call_trim (lit "username") username ;;
    p <- call_trim (lit "password") password ;;
    g <- this ;;
    _ <- set_this (set_credentials (Credentials.mk u p) g) ;;
    _ <- console_log (lit "Credentials updated successfully") ;;
    ret true.

Definition clearCredentials : M unit :=
  g <- this ;;
  _ <- set_this (set_credentials (Credentials.mk (Str []) (Str [])) g) ;;
  console_log (lit "Credentials cleared from memory").

Definition getConfigInfo (g : Generator) : Info.t :=
  {|
    Info.endpoint := Config.endpoint (config g);
    Info.port := Config.port (config g);
    Info.region := Config.region (config g);
    Info.proxyCount := Config.proxyCount (config g);
    Info.hasCredentials :=
      ToBoolean (Credentials.username (credentials g))
      && ToBoolean (Credentials.password (credentials g))
  |}.

(** A world around a generator: which random source there is and what it
    will deliver, an empty console and a clock. *)
Definition world_of (g : Generator) (crypto : bool) (rnd : nat -> N)
  : World :=
  mkWorld g crypto rnd 0 (mkDate 2025 0 15 9 5) [].

(** ** Predicates used in the statements *)

Definition is_alnum (c : N) : bool :=
  (((97 <=? c) && (c <=? 122)) || ((65 <=? c) && (c <=? 90))
   || ((48 <=? c) && (c <=? 57)))%N.

Definition well_formed_id (s : jstring) : Prop :=
  List.length s = 8%nat /\ Forall (fun c => In c chars) s.

(** A credential that is a string, or is absent. *)
Definition textual (v : prim) : Prop :=
  (exists s, v = Str s) \/ v = Null \/ v = Undefined.

Definition empty_or_absent (v : prim) : Prop :=
  v = Str [] \/ v = Null \/ v = Undefined.

Definition missing_credential (r : exn + bool) : Prop :=
  r = inl (Error msg_required).

Definition credential_too_short (r : exn + bool) : Prop :=
  r = inl (Error msg_username_short) \/ r = inl (Error msg_password_short).

(** [g.credentials.username = u; g.credentials.password = p], the
    assignments the popup makes from outside the class. *)
Definition with_credentials (u p : prim) (g : Generator) : Generator :=
  set_credentials (Credentials.mk u p) g.

(** [new FoxyProxyGenerator()] *)
Definition fresh : Generator := constructor Options.empty.

(** What the batch holds: as many records as the clamped count, the
    record at position [i] being the one built for index [i]. *)
Definition batch_of (g : Generator) (data : list Proxy.t) : Prop :=
  forall i, (i < List.length data)%nat ->
    exists sid,
      well_formed_id sid
      /\ nth_error data i = Some (proxy_record g (Z.of_nat i) sid).

(** A world for the examples: the generator constructed from [o] with
    the credentials [u] and [p] assigned, the secure random source
    delivering 5, 42, 79, ... *)
Definition example_world (o : Options.t) (u p : jstring) : World :=
  world_of (with_credentials (Str u) (Str p) (constructor o)) true
           (fun n => N.of_nat (37 * n + 5)).

(** ** JSON

    [JSON.stringify(value, null, 2)] and [JSON.parse(text)] on trees of
    primitive values, arrays and objects.  An object is the list of its
    properties in enumeration order, which for keys that are not array
    indices is the order of insertion. *)

Module JSON.

#[local] Unset Elimination Schemes.
Inductive value :=
| Prim (p : prim)
| Arr (items : list value)
| Obj (props : list (jstring * value)).
#[local] Set Elimination Schemes.

(** *** Serialization *)

(** The indentation unit of [JSON.stringify(_, null, 2)]. *)
Definition gap : jstring := lit "  ".

Definition hex_digit (n : N) : N :=
  (if n <? 10 then 48 + n else 87 + n)%N.

(** [\uXXXX] with lowercase hexadecimal digits. *)
Definition unicode_escape (c : N) : jstring :=
  [92; 117; hex_digit (c / 4096 mod 16); hex_digit (c / 256 mod 16);
   hex_digit (c / 16 mod 16); hex_digit (c mod 16)]%N.

Definition is_leading (c : N) : bool := ((55296 <=? c) && (c <=? 56319))%N.

Definition is_trailing (c : N) : bool := ((56320 <=? c) && (c <=? 57343))%N.

(** One code point that is a single code unit: the short escapes, then
    [\uXXXX] for the other control characters and for a surrogate that
    has no partner, and the unit itself otherwise. *)
Definition quote_unit (c : N) : jstring :=
  (if c =? 8 then [92; 98]
   else if c =? 9 then [92; 116]
   else if c =? 10 then [92; 110]
   else if c =? 12 then [92; 102]
   else if c =? 13 then [92; 114]
   else if c =? 34 then [92; 34]
   else if c =? 92 then [92; 92]
   else if (c <? 32) || is_leading c || is_trailing c then unicode_escape c
   else [c])%N.

Fixpoint quote_body (s : jstring) : jstring :=
  match s with
  | [] => []
  | c :: r =>
      match r with
      | d :: r' =>
          if is_leading c && is_trailing d then c :: d :: quote_body r'
          else quote_unit c ++ quote_body r
      | [] => quote_unit c
      end
  end.

Definition quote (s : jstring) : jstring := 34%N :: quote_body s ++ [34%N].

Fixpoint join (sep : jstring) (l : list jstring) : jstring :=
  match l with
  | [] => []
  | [x] => x
  | x :: r => x ++ sep ++ join sep r
  end.

(** The text of an array or of an object from the texts of its
    members. *)
Definition wrap (opening closing : N) (stepback indent : jstring)
  (partial : list jstring) : jstring :=
  match partial with
  | [] => [opening; closing]
  | _ =>
      [opening; 10%N] ++ indent ++ join ([44; 10]%N ++ indent) partial
      ++ [10%N] ++ stepback ++ [closing]
  end.

(** [SerializeJSONProperty]: [None] is the [undefined] that makes an
    object skip the property and an array print [null]. *)
Fixpoint serialize (indent : jstring) (v : value) : option jstring :=
  match v with
  | Prim Undefined => None
  | Prim Null => Some (lit "null")
  | Prim (Bool true) => Some (lit "true")
  | Prim (Bool false) => Some (lit "false")
  | Prim (Num NaN) => Some (lit "null")
  | Prim (Num (Int z)) => Some (Z_to_string z)
  | Prim (Str s) => Some (quote s)
  | Arr items =>
      let stepback := indent in
      let indent := indent ++ gap in
      let partial :=
        map (fun x =>
               match serialize indent x with
               | Some t => t
               | None => lit "null"
               end) items in
      Some (wrap 91 93 stepback indent partial)
  | Obj props =>
      let stepback := indent in
      let indent := indent ++ gap in
      let partial :=
        flat_map (fun kx =>
                    match serialize indent (snd kx) with
                    | Some t => [quote (fst kx) ++ lit ": " ++ t]
                    | None => []
                    end) props in
      Some (wrap 123 125 stepback indent partial)
  end.

Definition stringify (v : value) : prim :=
  match serialize [] v with
  | Some t => Str t
  | None => Undefined
  end.

(** *** Parsing *)

Definition is_ws (c : N) : bool :=
  ((c =? 32) || (c =? 9) || (c =? 10) || (c =? 13))%N.

Fixpoint skip_ws (s : jstring) : jstring :=
  match s with
  | c :: r => if is_ws c then skip_ws r else s
  | [] => []
  end.

Fixpoint strip_prefix (p s : jstring) : option jstring :=
  match p with
  | [] => Some s
  | a :: p' =>
      match s with
      | c :: r => if (a =? c)%N then strip_prefix p' r else None
      | [] => None
      end
  end.

Definition hex_value (c : N) : option N :=
  (if (48 <=? c) && (c <=? 57) then Some (c - 48)
   else if (97 <=? c) && (c <=? 102) then Some (c - 87)
   else if (65 <=? c) && (c <=? 70) then Some (c - 55)
   else None)%N.

Definition hex4 (a b c d : N) : option N :=
  match hex_value a, hex_value b, hex_value c, hex_value d with
  | Some x, Some y, Some z, Some t =>
      Some (x * 4096 + y * 256 + z * 16 + t)%N
  | _, _, _, _ => None
  end.

Definition unescape (e : N) : option N :=
  (if e =? 34 then Some 34
   else if e =? 92 then Some 92
   else if e =? 47 then Some 47
   else if e =? 98 then Some 8
   else if e =? 102 then Some 12
   else if e =? 110 then Some 10
   else if e =? 114 then Some 13
   else if e =? 116 then Some 9
   else None)%N.

Definition cons_to (c : N) (x : option (jstring * jstring))
  : option (jstring * jstring) :=
  match x with
  | Some (s, r) => Some (c :: s, r)
  | None => None
  end.

(** The characters of a string after its opening quote, up to and with
    the closing quote; returns the string and what follows it. *)
Fixpoint parse_chars (s : jstring) : option (jstring * jstring) :=
  match s with
  | [] => None
  | c :: r =>
      if (c =? 34)%N then Some ([], r)
      else if (c =? 92)%N then
        match r with
        | [] => None
        | e :: r1 =>
            if (e =? 117)%N then
              match r1 with
              | h1 :: h2 :: h3 :: h4 :: r2 =>
                  match hex4 h1 h2 h3 h4 with
                  | Some u => cons_to u (parse_chars r2)
                  | None => None
                  end
              | _ => None
              end
            else
              match unescape e with
              | Some u => cons_to u (parse_chars r1)
              | None => None
              end
        end
      else if (c <? 32)%N then None
      else cons_to c (parse_chars r)
  end.

Definition starts_fraction (s : jstring) : bool :=
  match s with
  | c :: _ => ((c =? 46) || (c =? 101) || (c =? 69))%N
  | [] => false
  end.

(** A number: an optional minus sign and an integer part without a
    superfluous leading zero.  A fraction or an exponent is valid JSON but
    not a number of this model, so the parse gives up on it. *)
Definition parse_number (s : jstring) : option (value * jstring) :=
  let (neg, s1) :=
    match s with
    | c :: r => if (c =? 45)%N then (true, r) else (false, s)
    | [] => (false, s)
    end in
  let (d, rest) := span_digits s1 in
  match d with
  | [] => None
  | c :: d' =>
      if (c =? 48)%N && negb (match d' with [] => true | _ => false end)
      then None
      else if starts_fraction rest then None
      else
        let m := Z.of_N (digits_value d) in
        Some (Prim (Num (Int (if neg then - m else m))), rest)
  end.

(** Defining a property: a key that is there already keeps its place
    and takes the new value. *)
Fixpoint set_prop (k : jstring) (v : value) (props : list (jstring * value))
  : list (jstring * value) :=
  match props with
  | [] => [(k, v)]
  | (k', v') :: r =>
      if jstring_eqb k' k then (k', v) :: r else (k', v') :: set_prop k v r
  end.

(** Recursive descent.  [fuel] bounds the depth of the calls; the length
    of the text is always enough. *)
Fixpoint parse_value (fuel : nat) (s : jstring) : option (value * jstring) :=
  match fuel with
  | O => None
  | S f =>
      match skip_ws s with
      | [] => None
      | c :: r =>
          if (c =? 34)%N then
            match parse_chars r with
            | Some (str, r') => Some (Prim (Str str), r')
            | None => None
            end
          else if (c =? 91)%N then
            match skip_ws r with
            | [] => None
            | c' :: r' =>
                if (c' =? 93)%N then Some (Arr [], r')
                else parse_elements f r []
            end
          else if (c =? 123)%N then
            match skip_ws r with
            | [] => None
            | c' :: r' =>
                if (c' =? 125)%N then Some (Obj [], r')
                else parse_members f r []
            end
          else if (c =? 116)%N then
            match strip_prefix (lit "rue") r with
            | Some r' => Some (Prim (Bool true), r')
            | None => None
            end
          else if (c =? 102)%N then
            match strip_prefix (lit "alse") r with
            | Some r' => Some (Prim (Bool false), r')
            | None => None
            end
          else if (c =? 110)%N then
            match strip_prefix (lit "ull") r with
            | Some r' => Some (Prim Null, r')
            | None => None
            end
          else parse_number (c :: r)
      end
  end

with parse_elements (fuel : nat) (s : jstring) (acc : list value)
  : option (value * jstring) :=
  match fuel with
  | O => None
  | S f =>
      match parse_value f s with
      | None => None
      | Some (v, r) =>
          match skip_ws r with
          | [] => None
          | c :: r' =>
              if (c =? 44)%N then parse_elements f r' (acc ++ [v])
              else if (c =? 93)%N then Some (Arr (acc ++ [v]), r')
              else None
          end
      end
  end

with parse_members (fuel : nat) (s : jstring) (acc : list (jstring * value))
  : option (value * jstring) :=
  match fuel with
  | O => None
  | S f =>
      match skip_ws s with
      | [] => None
      | c :: r =>
          if (c =? 34)%N then
            match parse_chars r with
            | None => None
            | Some (k, r1) =>
                match skip_ws r1 with
                | [] => None
                | c1 :: r2 =>
                    if (c1 =? 58)%N then
                      match parse_value f r2 with
                      | None => None
                      | Some (v, r3) =>
                          match skip_ws r3 with
                          | [] => None
                          | c3 :: r4 =>
                              if (c3 =? 44)%N
                              then parse_members f r4 (set_prop k v acc)
                              else if (c3 =? 125)%N
                              then Some (Obj (set_prop k v acc), r4)
                              else None
                          end
                      end
                    else None
                end
            end
          else None
      end
  end.

(** [JSON.parse(text)]; [None] when it throws a [SyntaxError] (or meets a
    number with a fraction or an exponent). *)
Definition parse (text : jstring) : option value :=
  match parse_value (S (List.length text)) text with
  | Some (v, r) =>
      match skip_ws r with
      | [] => Some v
      | _ => None
      end
  | None => None
  end.

(** Does serializing lose nothing of the value?  No [undefined] and no
    [NaN] anywhere, and no key twice in an object. *)
Fixpoint mem_key (k : jstring) (l : list jstring) : bool :=
  match l with
  | [] => false
  | x :: r => jstring_eqb x k || mem_key k r
  end.

Fixpoint distinct (l : list jstring) : bool :=
  match l with
  | [] => true
  | x :: r => negb (mem_key x r) && distinct r
  end.

Definition representable_prim (p : prim) : bool :=
  match p with
  | Undefined => false
  | Num NaN => false
  | _ => true
  end.

Fixpoint representable (v : value) : bool :=
  match v with
  | Prim p => representable_prim p
  | Arr items => forallb representable items
  | Obj props =>
      distinct (map fst props)
      && forallb (fun kx => representable (snd kx)) props
  end.

(** What follows a member in the text of an array or of an object: a
    comma or a line break, or nothing at the end of the text. *)
Definition delimited (rest : jstring) : bool :=
  match rest with
  | [] => true
  | c :: _ => ((c =? 44) || (c =? 10))%N
  end.

End JSON.

(** ** The records as JavaScript objects *)

Definition Proxy_object (r : Proxy.t) : JSON.value :=
  JSON.Obj
    [ (lit "active", JSON.Prim (Bool (Proxy.active r)));
      (lit "title", JSON.Prim (Str (Proxy.title r)));
      (lit "type", JSON.Prim (Str (Proxy.type r)));
      (lit "hostname", JSON.Prim (Proxy.hostname r));
      (lit "port", JSON.Prim (Num (Proxy.port r)));
      (lit "username", JSON.Prim (Str (Proxy.username r)));
      (lit "password", JSON.Prim (Proxy.password r));
      (lit "cc", JSON.Prim (Str (Proxy.cc r)));
      (lit "city", JSON.Prim (Str (Proxy.city r)));
      (lit "color", JSON.Prim (Proxy.color r));
      (lit "pac", JSON.Prim (Str (Proxy.pac r)));
      (lit "pacString", JSON.Prim (Str (Proxy.pacString r)));
      (lit "proxyDNS", JSON.Prim (Bool (Proxy.proxyDNS r)));
      (lit "include", JSON.Arr (map JSON.Prim (Proxy.include r)));
      (lit "exclude", JSON.Arr (map JSON.Prim (Proxy.exclude r)));
      (lit "tabProxy", JSON.Arr (map JSON.Prim (Proxy.tabProxy r))) ].

Definition Commands_object (c : Commands.t) : JSON.value :=
  JSON.Obj
    [ (lit "setProxy", JSON.Prim (Str (Commands.setProxy c)));
      (lit "setTabProxy", JSON.Prim (Str (Commands.setTabProxy c)));
      (lit "includeHost", JSON.Prim (Str (Commands.includeHost c)));
      (lit "excludeHost", JSON.Prim (Str (Commands.excludeHost c))) ].

Definition Full_object (f : Full.t) : JSON.value :=
  JSON.Obj
    [ (lit "mode", JSON.Prim (Str (Full.mode f)));
      (lit "sync", JSON.Prim (Bool (Full.sync f)));
      (lit "autoBackup", JSON.Prim (Bool (Full.autoBackup f)));
      (lit "passthrough", JSON.Prim (Str (Full.passthrough f)));
      (lit "theme", JSON.Prim (Str (Full.theme f)));
      (lit "container",
       JSON.Obj (map (fun kx => (fst kx, JSON.Prim (snd kx)))
                     (Full.container f)));
      (lit "commands", Commands_object (Full.commands f));
      (lit "data", JSON.Arr (map Proxy_object (Full.data f))) ].

Definition getConfigAsJson : M prim :=
  try_catch
    (config <- generateFullConfig ;;
     ret (JSON.stringify (Full_object config)))
    (fun error =>
       _ <- console_error (lit "Error generating config JSON:") error ;;
       throw (Error (lit "Failed to generate configuration: "
                     ++ message error))).

(** A numeral of [n] without a superfluous leading zero. *)
Definition numeral (d : jstring) (n : N) : Prop :=
  Forall (fun c => is_digit c = true) d
  /\ digits_value d = n
  /\ exists c r, d = c :: r /\ (c = 48%N -> r = []).

(** *** The layout of a serialized array or object *)

Definition blank (s : jstring) : Prop :=
  Forall (fun c => JSON.is_ws c = true) s.

(** The text of a member of an array. *)
Definition text_of (indent : jstring) (x : JSON.value) : jstring :=
  match JSON.serialize indent x with
  | Some t => t
  | None => lit "null"
  end.

(** The text of a member of an object. *)
Definition member_text (indent : jstring) (kx : jstring * JSON.value)
  : jstring :=
  JSON.quote (fst kx) ++ lit ": " ++ text_of indent (snd kx).

(** What follows the first member: each further member after a
    separator, the closing line, and the rest of the text. *)
Fixpoint tail_text (sep closing : jstring) (ts : list jstring)
  (rest : jstring) : jstring :=
  match ts with
  | [] => closing ++ rest
  | t :: r => sep ++ t ++ tail_text sep closing r rest
  end.

(** Parsing gives back the value that was serialized, from any text that
    starts with its serialization.  This is the statement proved by
    induction on the value. *)
Definition round_trips (v : JSON.value) : Prop :=
  JSON.representable v = true ->
  forall (indent t : jstring) (fuel : nat) (rest : jstring),
    blank indent ->
    JSON.serialize indent v = Some t ->
    (List.length t < fuel)%nat ->
    JSON.delimited rest = true ->
    JSON.parse_value fuel (t ++ rest) = Some (v, rest).

(** [Number.isSafeInteger]: the integers that a JavaScript number holds
    exactly, and for which the numbers of this model are the numbers of
    the engine. *)
Definition safe_integer (n : number) : Prop :=
  match n with
  | NaN => False
  | Int z => - 2 ^ 53 < z < 2 ^ 53
  end.

(** A value whose string is in this model what it is in the engine:
    every value but a number that is not a safe integer. *)
Definition exact_number (p : prim) : Prop :=
  match p with
  | Num (Int z) => - 2 ^ 53 < z < 2 ^ 53
  | _ => True
  end.

(** A port that [parseInt] reads as the engine does: not at all, or as a
    safe integer. *)
Definition exact_port (p : prim) : Prop :=
  parseInt p = NaN \/ safe_integer (parseInt p).

(** ** Closed forms of what the generator draws and logs *)

(** The identifier that [generateSessionId] builds from the 8 values of
    the random source that start at position [pos]: through the byte
    array when [crypto] is there, through [Math.random] otherwise. *)
Definition session_id_at (crypto : bool) (rnd : nat -> N) (pos : nat)
  : jstring :=
  List.concat
    (map (fun k =>
            charAt chars
              (if crypto
               then Z.rem (Z.of_N (rnd (pos + k)%nat) mod 256) chars_length
               else floor_times (Z.of_N (rnd (pos + k)%nat) mod 2 ^ 53)
                                chars_length))
         (seq 0 8)).

(** The identifier of the record at position [i] of a batch generated in
    the world [w]: the records take 8 values each, one after the other. *)
Definition token (w : World) (i : nat) : jstring :=
  session_id_at (secure w) (entropy w) (drawn w + 8 * i).

(** How many records [generateFullConfig] builds. *)
Definition batch_count (g : Generator) : nat :=
  iterations (clamp_count (Config.proxyCount (config g))).

(** The world after one more entry on the console. *)
Definition logged (e : log_entry) (w : World) : World :=
  mkWorld (self w) (secure w) (entropy w) (drawn w) (clock w)
          (console w ++ [e]).

(** The line that [generateFullConfig] logs. *)
Definition generating_line (g : Generator) : log_entry :=
  Log (lit "Generating "
       ++ Number_toString (clamp_count (Config.proxyCount (config g)))
       ++ lit " proxy configurations").

(** The two low decimal digits of [z]. *)
Definition two_digits (z : Z) : jstring :=
  [(48 + (Z.to_N z / 10) mod 10)%N; (48 + Z.to_N z mod 10)%N].

(** A string that neither starts nor ends with white space. *)
Definition trimmed (s : jstring) : Prop :=
  (forall c r, s = c :: r -> is_white c = false)
  /\ (forall c r, s = r ++ [c] -> is_white c = false).

(** The options that spell out a template. *)
Definition options_of (c : Config.t) : Options.t :=
  Options.mk (Some (Config.endpoint c)) (Some (Config.port c))
             (Some (Config.region c)) (Some (Config.proxyCount c)).

(** ** What parsing makes of a serialized value *)

Definition is_undefined (v : JSON.value) : bool :=
  match v with
  | JSON.Prim Undefined => true
  | _ => false
  end.

(** The value that [JSON.parse(JSON.stringify(v))] gives: [NaN] has
    become [null], an [undefined] member of an array has become [null],
    and a property whose value is [undefined] has gone. *)
Fixpoint normalize (v : JSON.value) : JSON.value :=
  match v with
  | JSON.Prim (Num NaN) => JSON.Prim Null
  | JSON.Prim p => JSON.Prim p
  | JSON.Arr items =>
      JSON.Arr
        (map (fun x => if is_undefined x then JSON.Prim Null else normalize x)
             items)
  | JSON.Obj props =>
      JSON.Obj
        (flat_map (fun kx =>
                     if is_undefined (snd kx) then []
                     else [(fst kx, normalize (snd kx))])
                  props)
  end.

(** No object of the value has a key twice. *)
Fixpoint distinct_keys (v : JSON.value) : bool :=
  match v with
  | JSON.Prim _ => true
  | JSON.Arr items => forallb distinct_keys items
  | JSON.Obj props =>
      JSON.distinct (map fst props)
      && forallb (fun kx => distinct_keys (snd kx)) props
  end.

(** ** Downloading the configuration *)

Module Download.
(** The object that [downloadConfig] returns. *)
Record t := mk {
  success : bool;
  filename : jstring
}.
End Download.

(** [downloadConfig].  The calls on the page (the Blob, its URL, the link
    that is clicked and the timer that removes it) are taken to succeed;
    the page is not part of the world, so the model returns, beside the
    result object, the text that it hands to the Blob. *)
Definition downloadConfig : M (Download.t * prim) :=
  try_catch
    (config <- generateFullConfig ;;
     let jsonStr := JSON.stringify (Full_object config) in
     _ <- match JSON.parse (ToString jsonStr) with
          | Some _ => ret tt
          | None =>
              throw (Error (lit "Generated configuration is not valid JSON"))
          end ;;
     dateStr <- formatDate ;;
     let filename :=
       lit "922proxy-foxyproxy-config-" ++ dateStr ++ lit ".json" in
     _ <- console_log (lit "Configuration downloaded successfully: "
                       ++ filename) ;;
     ret (Download.mk true filename, jsonStr))
    (fun error =>
       _ <- console_error (lit "Error downloading configuration:") error ;;
       throw (Error (lit "Download failed: " ++ message error))).

(** ** The credential service (services/UIManager.js) *)

(** [invalidChars.test(v)]: does the string of [v] hold a less-than or
    greater-than sign, a double quote or an apostrophe? *)
Definition invalidChars_test (v : prim) : bool :=
  existsb (fun c => ((c =? 60) || (c =? 62) || (c =? 34) || (c =? 39))%N)
          (ToString v).

(** [CredentialService.validateCredentialFormat] *)
Definition validateCredentialFormat (username password : prim) : bool :=
  if negb (ToBoolean username) || lt_opt (length_of username) 3 then false
  else if negb (ToBoolean password) || lt_opt (length_of password) 6
  then false
  else if invalidChars_test username || invalidChars_test password
  then false
  else true.

(** ** The timer of a container (services/UIManager.js) *)

(** [UIManager.formatTime], for a whole number of seconds:
    [Math.floor(seconds / 60)] rounds down and [seconds % 60] has the sign
    of [seconds]. *)
Definition formatTime (seconds : Z) : jstring :=
  let minutes := seconds / 60 in
  let remainingSeconds := Z.rem seconds 60 in
  padStart2 (Z_to_string minutes) ++ lit ":"
  ++ padStart2 (Z_to_string remainingSeconds).

(** ** Random containers (the popup) *)

Definition adjectives : list jstring :=
  map lit
    [ "Swift"; "Silent"; "Mystic"; "Blazing"; "Crystal"; "Thunder";
      "Shadow"; "Golden"; "Crimson"; "Azure"; "Emerald"; "Silver";
      "Midnight"; "Dawn"; "Storm"; "Frozen"; "Neon"; "Cosmic";
      "Electric"; "Stealth"; "Phantom"; "Velocity"; "Quantum";
      "Cyber" ]%string.

Definition nouns : list jstring :=
  map lit
    [ "Fox"; "Wolf"; "Eagle"; "Dragon"; "Phoenix"; "Tiger"; "Panther";
      "Falcon"; "Shark"; "Lightning"; "Comet"; "Galaxy"; "Nova"; "Blade";
      "Arrow"; "Shield"; "Proxy"; "Tunnel"; "Bridge"; "Portal";
      "Gateway"; "Node"; "Server"; "Hub" ]%string.

Definition container_colors : list jstring :=
  map lit
    [ "blue"; "turquoise"; "green"; "yellow"; "orange"; "red"; "pink";
      "purple" ]%string.

Definition container_icons : list jstring :=
  map lit
    [ "fingerprint"; "briefcase"; "dollar"; "cart"; "vacation"; "gift";
      "food"; "fruit"; "pet"; "tree"; "chill" ]%string.

(** [array[Math.floor(Math.random() * array.length)]] *)
Definition random_element (array : list jstring) : M prim :=
  x <- Math_random ;;
  ret (array_get array
         (Int (floor_times x (Z.of_nat (List.length array))))).

Definition generateRandomContainerName : M jstring :=
  randomAdjective <- random_element adjectives ;;
  randomNoun <- random_element nouns ;;
  x <- Math_random ;;
  let randomNumber := floor_times x 999 + 1 in
  ret (ToString randomAdjective ++ lit " " ++ ToString randomNoun
       ++ lit " " ++ Z_to_string randomNumber).

Definition generateRandomContainerColor : M prim :=
  random_element container_colors.

Definition generateRandomContainerIcon : M prim :=
  random_element container_icons.

(** ** The container service: applied statuses in [localStorage] *)

Module Storage.
(** [localStorage]: the stored strings by key.  Writing is taken to
    succeed (the quota is not reached). *)
Definition t := list (jstring * jstring).

Fixpoint getItem (k : jstring) (s : t) : option jstring :=
  match s with
  | [] => None
  | (k', v) :: r => if jstring_eqb k' k then Some v else getItem k r
  end.


Definition removeItem (k : jstring) (s : t) : t :=
  filter (fun kv => negb (jstring_eqb (fst kv) k)) s.

(** [Object.keys(localStorage)] *)
Definition keys (s : t) : list jstring := map fst s.
End Storage.

(** What the service reads and writes on the page. *)
Record Page := mkPage {
  localStorage : Storage.t;
  date_now : Z;                      (* [Date.now()] *)
  page_console : list log_entry
}.

Definition with_storage (s : Storage.t) (p : Page) : Page :=
  mkPage s (date_now p) (page_console p).

Definition page_log (e : log_entry) (p : Page) : Page :=
  mkPage (localStorage p) (date_now p) (page_console p ++ [e]).


(** [s.startsWith(prefix)] *)
Fixpoint startsWith (prefix s : jstring) : bool :=
  match prefix with
  | [] => true
  | a :: prefix' =>
      match s with
      | c :: r => (a =? c)%N && startsWith prefix' r
      | [] => false
      end
  end.



Definition applied_prefix : jstring := lit "container_applied_".

(** The key of the status of a container. *)
Definition applied_key (cookieStoreId : prim) : jstring :=
  applied_prefix ++ ToString cookieStoreId.

(** [ContainerService.getAppliedStatus] *)
Definition getAppliedStatus (cookieStoreId : prim) (p : Page) : JSON.value :=
  let key := applied_key cookieStoreId in
  match Storage.getItem key (localStorage p) with
  | Some data =>
      if ToBoolean (Str data) then
        match JSON.parse data with
        | Some v => v
        | None => JSON.Prim Null
        end
      else JSON.Prim Null
  | None => JSON.Prim Null
  end.



(** [ContainerService.clearAllAppliedStatuses] *)
Definition clearAllAppliedStatuses (p : Page) : Page :=
  let keys := Storage.keys (localStorage p) in
  let s :=
    fold_left
      (fun s key =>
         if startsWith applied_prefix key then Storage.removeItem key s
         else s)
      keys (localStorage p) in
  page_log (Log (9989%N :: lit " Cleared all applied statuses"))
           (with_storage s p).



(** ** The colour of a container (services/UIManager.js) *)

(** The table of [getContainerColor]. *)
Definition color_table : list (jstring * jstring) :=
  [ (lit "blue", lit "#37adff");
    (lit "turquoise", lit "#00c79a");
    (lit "green", lit "#51cd00");
    (lit "yellow", lit "#ffcb00");
    (lit "orange", lit "#ff9f00");
    (lit "red", lit "#ff613d");
    (lit "pink", lit "#ff4bda");
    (lit "purple", lit "#af51f5") ].

(** What [colors[color] || colors.blue] gives: a string of the table, or
    the value that the object inherits under that name ([toString],
    [constructor] and the like), which is not a string. *)
Inductive looked_up :=
| Own (value : jstring)
| Inherited (name : jstring).

Section ContainerColor.

(** Which names the prototype of a plain object defines. *)
Variable inherited : jstring -> bool.

(** [UIManager.getContainerColor] *)
Definition getContainerColor (color : prim) : looked_up :=
  let key := ToString color in
  match Storage.getItem key color_table with
  | Some value => Own value
  | None =>
      if inherited key then Inherited key
      else match Storage.getItem (lit "blue") color_table with
           | Some value => Own value
           | None => Inherited (lit "blue")
           end
  end.

End ContainerColor.

Definition is_hex_digit (c : N) : bool :=
  (((48 <=? c) && (c <=? 57)) || ((97 <=? c) && (c <=? 102))
   || ((65 <=? c) && (c <=? 70)))%N.

(** [#rrggbb] *)
Definition is_hex_color (s : jstring) : bool :=
  match s with
  | c :: r =>
      (c =? 35)%N && (List.length r =? 6)%nat && forallb is_hex_digit r
  | [] => false
  end.

(** ** The list of containers and its cache (ContainerService) *)

Inductive service_entry :=
| Warned (text : jstring)
| Failed (text : jstring) (e : exn).

Section Containers.

(** What the browser knows of a container. *)
Variable container : Type.

(** [this.cache] *)
Record Cache := mkCache {
  containers : option (list container);  (* [null], or the fetched list *)
  lastFetch : Z;
  cacheDuration : Z
}.

(** [new ContainerService().cache] *)
Definition new_cache : Cache := mkCache None 0 5000.

(** What the browser answers when the list is queried: there is no
    container API, the query is rejected, or it is resolved. *)
Inductive answer :=
| NoApi
| Rejected (e : exn)
| Resolved (l : list container).

(** [ContainerService.getContainers], run to its end: the list it
    returns, the cache it leaves, what it logs, and whether it queried
    the browser. *)
Definition getContainers (forceRefresh : prim) (now : Z) (browser : answer)
  (cache : Cache) : list container * Cache * list service_entry * bool :=
  match containers cache with
  | Some l =>
      if negb (ToBoolean forceRefresh)
         && (now - lastFetch cache <? cacheDuration cache)
      then (l, cache, [], false)
      else
        match browser with
        | NoApi =>
            ([], cache,
             [Warned ([9888; 65039]%N ++ lit " Container API not available")],
             false)
        | Resolved fetched =>
            (fetched, mkCache (Some fetched) now (cacheDuration cache), [],
             true)
        | Rejected error =>
            (l, cache,
             [Failed (10060%N :: lit " Failed to get containers:") error],
             true)
        end
  | None =>
      match browser with
      | NoApi =>
          ([], cache,
           [Warned ([9888; 65039]%N ++ lit " Container API not available")],
           false)
      | Resolved fetched =>
          (fetched, mkCache (Some fetched) now (cacheDuration cache), [],
           true)
      | Rejected error =>
          ([], cache,
           [Failed (10060%N :: lit " Failed to get containers:") error],
           true)
      end
  end.

(** [ContainerService.clearCache] *)
Definition clearCache (cache : Cache) : Cache :=
  mkCache None 0 (cacheDuration cache).

End Containers.

Arguments mkCache {container}.
Arguments containers {container}.
Arguments lastFetch {container}.
Arguments cacheDuration {container}.
Arguments new_cache {container}.
Arguments NoApi {container}.
Arguments Rejected {container}.
Arguments Resolved {container}.
Arguments getContainers {container}.
Arguments clearCache {container}.
(** ** Facts about the primitives *)

Lemma chars_alnum : Forall (fun c => is_alnum c = true) chars.
Proof. repeat constructor. Qed.

Lemma chars_length_62 : chars_length = 62.
Proof. reflexivity. Qed.

Lemma charAt_chars (i : Z) :
  0 <= i < 62 -> exists c, charAt chars i = [c] /\ In c chars.
Proof.
  intros Hi. unfold charAt.
  destruct (i <? 0) eqn:E; [apply Z.ltb_lt in E; lia|].
  destruct (nth_error chars (Z.to_nat i)) as [c|] eqn:Hn.
  - exists c. split; [reflexivity|].
    apply nth_error_In in Hn. exact Hn.
  - apply nth_error_None in Hn.
    change (List.length chars) with 62%nat in Hn. lia.
Qed.

Lemma advance_advance (a b : nat) (w : World) :
  advance a (advance b w) = advance (b + a) w.
Proof. unfold advance; simpl. f_equal. lia. Qed.

Lemma advance_self (k : nat) (w : World) : self (advance k w) = self w.
Proof. reflexivity. Qed.

(** The loop rule: an invariant that every iteration re-establishes
    without throwing holds when the loop is over. *)
Lemma for_from_invariant {S} (body : Z -> S -> M S) :
  forall (n : nat) (i0 : Z) (I : nat -> S -> World -> Prop),
    (forall k s w, (k < n)%nat -> I k s w ->
       exists s' w', body (i0 + Z.of_nat k) s w = (inr s', w')
                     /\ I (Datatypes.S k) s' w') ->
    forall s w, I O s w ->
      exists s' w', for_from n i0 body s w = (inr s', w') /\ I n s' w'.
Proof.
  induction n as [|n IH]; intros i0 I Hstep s w H0.
  - exists s, w. split; [reflexivity | assumption].
  - destruct (Hstep O s w ltac:(lia) H0) as (s1 & w1 & Hb & H1).
    replace (i0 + Z.of_nat 0) with i0 in Hb by lia.
    destruct (IH (i0 + 1) (fun k => I (Datatypes.S k))) with (s := s1) (w := w1)
      as (s2 & w2 & Hl & H2).
    + intros k s' w' Hk Hi.
      destruct (Hstep (Datatypes.S k) s' w' ltac:(lia) Hi) as (s3 & w3 & Hb3 & H3).
      exists s3, w3. split; [|assumption].
      rewrite <- Hb3. f_equal. lia.
    + assumption.
    + exists s2, w2. split; [|assumption].
      simpl. unfold bind. rewrite Hb. exact Hl.
Qed.

(** ** The session identifier *)

Lemma generateSessionId_secure (w : World) :
  secure w = true ->
  exists s, generateSessionId w = (inr s, advance 8 w) /\ well_formed_id s.
Proof.
  intros Hs. unfold generateSessionId, bind, has_crypto. rewrite Hs.
  unfold getRandomValues. cbv beta iota.
  set (array := map _ (seq 0 8)).
  destruct (for_from_invariant
              (fun i result =>
                 ret (result ++ charAt chars (Z.rem (byte_at array i) chars_length)))
              8 0
              (fun k s w' =>
                 w' = advance 8 w /\ List.length s = k
                 /\ Forall (fun c => In c chars) s))
    with (s := @nil N) (w := advance 8 w) as (s & w' & Hrun & Hw & Hlen & Hall).
  - intros k s w' Hk (Hw & Hlen & Hall).
    assert (Hb : 0 <= byte_at array (0 + Z.of_nat k) < 256).
    { unfold byte_at, array.
      replace (Z.to_nat (0 + Z.of_nat k)) with k by lia.
      set (f := fun k : nat => Z.of_N (entropy w (drawn w + k)%nat) mod 256).
      rewrite (nth_indep _ 0 (f O)) by (rewrite length_map, length_seq; lia).
      rewrite map_nth. apply Z.mod_pos_bound. lia. }
    destruct (charAt_chars (Z.rem (byte_at array (0 + Z.of_nat k)) chars_length))
      as (c & Hc & Hal).
    { rewrite chars_length_62.
      pose proof (Z.rem_bound_pos (byte_at array (0 + Z.of_nat k)) 62
                    ltac:(lia) ltac:(lia)). lia. }
    eexists _, w'. split.
    + unfold ret. rewrite Hc. reflexivity.
    + split; [assumption|]. split.
      * rewrite length_app. simpl. lia.
      * apply Forall_app. split; [assumption | constructor; [assumption | constructor]].
  - split; [reflexivity | split; [reflexivity | constructor]].
  - exists s. split; [|split; assumption].
    unfold for_upto, iterations. change (Z.to_nat 8) with 8%nat.
    rewrite Hrun, Hw. reflexivity.
Qed.

Lemma floor_times_bound (k m : Z) :
  0 <= k < 2 ^ 53 -> 0 < m -> 0 <= floor_times k m < m.
Proof.
  intros Hk Hm. unfold floor_times. split.
  - apply Z.div_pos; nia.
  - apply Z.div_lt_upper_bound; nia.
Qed.

Lemma generateSessionId_fallback (w : World) :
  secure w = false ->
  exists s, generateSessionId w = (inr s, advance 8 w) /\ well_formed_id s.
Proof.
  intros Hs. unfold generateSessionId. unfold bind at 1.
  unfold has_crypto. rewrite Hs.
  destruct (for_from_invariant
              (fun (i : Z) result =>
                 x <- Math_random ;;
                 ret (result ++ charAt chars (floor_times x chars_length)))
              8 0
              (fun k s w' =>
                 w' = advance k w /\ List.length s = k
                 /\ Forall (fun c => In c chars) s))
    with (s := @nil N) (w := w) as (s & w' & Hrun & Hw & Hlen & Hall).
  - intros k s w' Hk (Hw & Hlen & Hall).
    unfold bind, Math_random.
    set (x := Z.of_N (entropy w' (drawn w')) mod 2 ^ 53).
    destruct (charAt_chars (floor_times x chars_length)) as (c & Hc & Hal).
    { rewrite chars_length_62. apply floor_times_bound; [|lia].
      apply Z.mod_pos_bound. lia. }
    eexists _, (advance 1 w'). split.
    + unfold ret. rewrite Hc. reflexivity.
    + split; [rewrite Hw, advance_advance; f_equal; lia|]. split.
      * rewrite length_app. simpl. lia.
      * apply Forall_app. split; [assumption | constructor; [assumption | constructor]].
  - split; [|split; [reflexivity | constructor]].
    destruct w; unfold advance; simpl. f_equal. lia.
  - exists s. split; [|split; assumption].
    unfold for_upto, iterations. change (Z.to_nat 8) with 8%nat.
    rewrite Hrun, Hw. reflexivity.
Qed.

(** C4. [generateSessionId] never throws and returns a string of exactly
    8 code units, each a letter or a digit of the 62-character alphabet:
    with [crypto.getRandomValues], and without it through [Math.random].
    All it changes is the position in the random source. *)
Theorem generateSessionId_well_formed (w : World) :
  List.length chars = 62%nat /\
  exists s,
    generateSessionId w = (inr s, advance 8 w)
    /\ List.length s = 8%nat
    /\ Forall (fun c => is_alnum c = true /\ In c chars) s.
Proof.
  split; [reflexivity|].
  assert (H : exists s, generateSessionId w = (inr s, advance 8 w)
                        /\ well_formed_id s).
  { destruct (secure w) eqn:Hs;
      [apply generateSessionId_secure | apply generateSessionId_fallback];
      assumption. }
  destruct H as (s & Hrun & Hlen & Hall).
  exists s. split; [assumption|]. split; [assumption|].
  apply Forall_forall. intros c Hc.
  pose proof (proj1 (Forall_forall _ _) Hall c Hc) as Hin.
  split; [|assumption].
  exact (proj1 (Forall_forall _ _) chars_alnum c Hin).
Qed.

(** ** Validation of the credentials *)

Lemma textual_falsy (v : prim) :
  textual v -> (ToBoolean v = false <-> empty_or_absent v).
Proof.
  intros [[s ->] | [-> | ->]]; unfold empty_or_absent; simpl.
  - destruct s; split; intros H; try discriminate; auto.
    destruct H as [H | [H | H]]; discriminate.
  - split; auto.
  - split; auto.
Qed.

Lemma validateCredentials_true (g : Generator) (b : bool) :
  validateCredentials g = inr b -> b = true.
Proof.
  unfold validateCredentials.
  destruct (_ || _); [discriminate|].
  destruct (lt_opt _ 3); [discriminate|].
  destruct (lt_opt _ 6); [discriminate|].
  congruence.
Qed.

Lemma validateCredentials_truthy (g : Generator) :
  validateCredentials g = inr true ->
  ToBoolean (Credentials.username (credentials g)) = true
  /\ ToBoolean (Credentials.password (credentials g)) = true.
Proof.
  unfold validateCredentials.
  destruct (ToBoolean (Credentials.username (credentials g)));
    destruct (ToBoolean (Credentials.password (credentials g)));
    simpl; try discriminate; auto.
Qed.

(** C2. On credentials that are strings or absent, [validateCredentials]
    throws the missing-credential error exactly when the username or the
    password is empty or absent; it throws a too-short error exactly when
    both are non-empty and the username has fewer than 3 characters or
    the password fewer than 6; and it returns [true] exactly when the
    username has at least 3 and the password at least 6 characters. *)
Theorem validateCredentials_cases (g : Generator) :
  textual (Credentials.username (credentials g)) ->
  textual (Credentials.password (credentials g)) ->
  (missing_credential (validateCredentials g) <->
     empty_or_absent (Credentials.username (credentials g))
     \/ empty_or_absent (Credentials.password (credentials g)))
  /\ (credential_too_short (validateCredentials g) <->
        exists u p,
          credentials g = Credentials.mk (Str u) (Str p)
          /\ u <> [] /\ p <> []
          /\ ((List.length u < 3)%nat \/ (List.length p < 6)%nat))
  /\ (validateCredentials g = inr true <->
        exists u p,
          credentials g = Credentials.mk (Str u) (Str p)
          /\ (3 <= List.length u)%nat /\ (6 <= List.length p)%nat).
Proof.
  unfold missing_credential, credential_too_short, validateCredentials.
  destruct (credentials g) as [u p]; simpl.
  intros Hu Hp.
  pose proof (textual_falsy u Hu) as Fu.
  pose proof (textual_falsy p Hp) as Fp.
  destruct (ToBoolean u) eqn:Eu; simpl.
  2:{ split; [|split].
      - split; [intros _; left; apply Fu; reflexivity | reflexivity].
      - split; [intros [H | H]; discriminate|].
        intros (su & sp & E & Hne & _). injection E as -> ->.
        destruct su; [congruence | discriminate].
      - split; [discriminate|].
        intros (su & sp & E & Hl & _). injection E as -> ->.
        destruct su; [simpl in Hl; lia | discriminate]. }
  destruct (ToBoolean p) eqn:Ep; simpl.
  2:{ split; [|split].
      - split; [intros _; right; apply Fp; reflexivity | reflexivity].
      - split; [intros [H | H]; discriminate|].
        intros (su & sp & E & _ & Hne & _). injection E as -> ->.
        destruct sp; [congruence | discriminate].
      - split; [discriminate|].
        intros (su & sp & E & _ & Hl). injection E as -> ->.
        destruct sp; [simpl in Hl; lia | discriminate]. }
  assert (Nu : ~ empty_or_absent u) by (intros H; apply Fu in H; discriminate).
  assert (Np : ~ empty_or_absent p) by (intros H; apply Fp in H; discriminate).
  destruct Hu as [[su ->] | Hu]; [|exfalso; apply Nu; unfold empty_or_absent; tauto].
  destruct Hp as [[sp ->] | Hp]; [|exfalso; apply Np; unfold empty_or_absent; tauto].
  assert (su <> []) by (intros ->; discriminate).
  assert (sp <> []) by (intros ->; discriminate).
  simpl.
  destruct (Z.of_nat (List.length su) <? 3) eqn:E3.
  { apply Z.ltb_lt in E3. split; [|split].
    - split; [discriminate | tauto].
    - split; [intros _; exists su, sp; repeat split; auto; left; lia | auto].
    - split; [discriminate|].
      intros (a & b & E & Ha & _). injection E as <- <-. lia. }
  apply Z.ltb_ge in E3.
  destruct (Z.of_nat (List.length sp) <? 6) eqn:E6.
  { apply Z.ltb_lt in E6. split; [|split].
    - split; [discriminate | tauto].
    - split; [intros _; exists su, sp; repeat split; auto; right; lia | auto].
    - split; [discriminate|].
      intros (a & b & E & _ & Hb). injection E as <- <-. lia. }
  apply Z.ltb_ge in E6. split; [|split].
  - split; [discriminate | tauto].
  - split; [intros [K | K]; discriminate|].
    intros (a & b & E & _ & _ & Hl). injection E as <- <-. lia.
  - split; [intros _; exists su, sp; repeat split; auto; lia | reflexivity].
Qed.

(** The pairs the specification lists, through the theorem: ("",
    "anything"), ("user", "") and (null, null) miss a credential; ("ab",
    "longenough") and ("longenough", "short") are too short; ("alice",
    "secret1") passes. *)
Lemma validateCredentials_cases_witness :
  missing_credential
    (validateCredentials (with_credentials (Str []) (Str (lit "anything")) fresh))
  /\ missing_credential
       (validateCredentials (with_credentials (Str (lit "user")) (Str []) fresh))
  /\ missing_credential
       (validateCredentials (with_credentials Null Null fresh))
  /\ credential_too_short
       (validateCredentials
          (with_credentials (Str (lit "ab")) (Str (lit "longenough")) fresh))
  /\ credential_too_short
       (validateCredentials
          (with_credentials (Str (lit "longenough")) (Str (lit "short")) fresh))
  /\ validateCredentials
       (with_credentials (Str (lit "alice")) (Str (lit "secret1")) fresh)
     = inr true.
Proof.
  split; [|split; [|split; [|split; [|split]]]].
  - apply (validateCredentials_cases
             (with_credentials (Str []) (Str (lit "anything")) fresh));
      [left; eexists; reflexivity | left; eexists; reflexivity |].
    left; left; reflexivity.
  - apply (validateCredentials_cases
             (with_credentials (Str (lit "user")) (Str []) fresh));
      [left; eexists; reflexivity | left; eexists; reflexivity |].
    right; left; reflexivity.
  - apply (validateCredentials_cases (with_credentials Null Null fresh));
      [right; left; reflexivity | right; left; reflexivity |].
    left; right; left; reflexivity.
  - apply (validateCredentials_cases
             (with_credentials (Str (lit "ab")) (Str (lit "longenough")) fresh));
      [left; eexists; reflexivity | left; eexists; reflexivity |].
    exists (lit "ab"), (lit "longenough").
    split; [reflexivity|]. split; [discriminate|]. split; [discriminate|].
    left; simpl; lia.
  - apply (validateCredentials_cases
             (with_credentials (Str (lit "longenough")) (Str (lit "short")) fresh));
      [left; eexists; reflexivity | left; eexists; reflexivity |].
    exists (lit "longenough"), (lit "short").
    split; [reflexivity|]. split; [discriminate|]. split; [discriminate|].
    right; simpl; lia.
  - apply (validateCredentials_cases
             (with_credentials (Str (lit "alice")) (Str (lit "secret1")) fresh));
      [left; eexists; reflexivity | left; eexists; reflexivity |].
    exists (lit "alice"), (lit "secret1").
    split; [reflexivity|]. simpl; lia.
Defined.

(** ** The summary without sensitive data *)

(** C9. [getConfigInfo] returns the four template fields and one boolean,
    and nothing of the credentials beyond that boolean: two generators
    with the same template, that agree on whether the username is
    non-empty and on whether the password is non-empty, give identical
    summaries, whatever the passwords are. *)
Theorem getConfigInfo_hides_password (g1 g2 : Generator) :
  config g1 = config g2 ->
  ToBoolean (Credentials.username (credentials g1))
  = ToBoolean (Credentials.username (credentials g2)) ->
  ToBoolean (Credentials.password (credentials g1))
  = ToBoolean (Credentials.password (credentials g2)) ->
  getConfigInfo g1 = getConfigInfo g2
  /\ getConfigInfo g1
     = Info.mk (Config.endpoint (config g1)) (Config.port (config g1))
               (Config.region (config g1)) (Config.proxyCount (config g1))
               (Info.hasCredentials (getConfigInfo g1))
  /\ (Info.hasCredentials (getConfigInfo g1) = true <->
        ToBoolean (Credentials.username (credentials g1)) = true
        /\ ToBoolean (Credentials.password (credentials g1)) = true).
Proof.
  intros Hc Hu Hp. split; [|split].
  - unfold getConfigInfo. rewrite Hc, Hu, Hp. reflexivity.
  - reflexivity.
  - unfold getConfigInfo; simpl. apply andb_true_iff.
Qed.

Lemma getConfigInfo_hides_password_witness :
  getConfigInfo
    (with_credentials (Str (lit "alice")) (Str (lit "secret1")) fresh)
  = getConfigInfo
      (with_credentials (Str (lit "bob")) (Str (lit "hunter2hunter2")) fresh).
Proof.
  apply (getConfigInfo_hides_password
           (with_credentials (Str (lit "alice")) (Str (lit "secret1")) fresh)
           (with_credentials (Str (lit "bob")) (Str (lit "hunter2hunter2"))
                             fresh));
    reflexivity.
Defined.

(** ** Updating the credentials *)

Lemma trimStart_white (s : jstring) :
  Forall (fun c => is_white c = true) s -> trimStart s = [].
Proof.
  induction 1 as [|c r Hc _ IH]; simpl; [reflexivity|].
  rewrite Hc. exact IH.
Qed.

Lemma trim_white (s : jstring) :
  Forall (fun c => is_white c = true) s -> trim s = [].
Proof.
  intros H. unfold trim, trimEnd. rewrite (trimStart_white s H). reflexivity.
Qed.

(** C10. When both arguments are non-empty strings made of white space
    only, [updateCredentials] returns [true] (it tests for emptiness
    before it trims) and stores two empty strings; [validateCredentials]
    then throws the missing-credential error and [getConfigInfo] reports
    [hasCredentials] as [false]. *)
Theorem updateCredentials_blank (u p : jstring) (w : World) :
  u <> [] -> p <> [] ->
  Forall (fun c => is_white c = true) u ->
  Forall (fun c => is_white c = true) p ->
  exists w',
    updateCredentials (Str u) (Str p) w = (inr true, w')
    /\ credentials (self w') = Credentials.mk (Str []) (Str [])
    /\ config (self w') = config (self w)
    /\ missing_credential (validateCredentials (self w'))
    /\ Info.hasCredentials (getConfigInfo (self w')) = false.
Proof.
  intros Hu Hp Wu Wp.
  unfold updateCredentials.
  destruct u as [|cu u']; [congruence|].
  destruct p as [|cp p']; [congruence|].
  simpl ToBoolean. simpl negb. simpl orb. cbv iota.
  unfold call_trim, bind, ret, this, set_this, console_log, emit. simpl.
  rewrite (trim_white _ Wu), (trim_white _ Wp).
  eexists. split; [reflexivity|].
  simpl. repeat split; reflexivity.
Qed.

Lemma updateCredentials_blank_witness :
  exists w',
    updateCredentials (Str (lit "  ")) (Str [9; 32; 160]%N)
                      (world_of fresh true (fun _ => 0%N))
    = (inr true, w')
    /\ credentials (self w') = Credentials.mk (Str []) (Str [])
    /\ config (self w') = config fresh
    /\ missing_credential (validateCredentials (self w'))
    /\ Info.hasCredentials (getConfigInfo (self w')) = false.
Proof.
  apply (updateCredentials_blank (lit "  ") [9; 32; 160]%N
           (world_of fresh true (fun _ => 0%N)));
    [discriminate | discriminate | repeat constructor | repeat constructor].
Defined.

(** ** Building one record *)

Lemma generateSessionId_ok (w : World) :
  exists s, generateSessionId w = (inr s, advance 8 w) /\ well_formed_id s.
Proof.
  destruct (secure w) eqn:Hs;
    [apply generateSessionId_secure | apply generateSessionId_fallback];
    assumption.
Qed.


Lemma generateProxyConfig_valid (index : Z) (w : World) :
  validateCredentials (self w) = inr true ->
  exists sid,
    well_formed_id sid
    /\ generateProxyConfig index w
       = (inr (proxy_record (self w) index sid), advance 8 w).
Proof.
  intros Hv.
  destruct (generateSessionId_ok w) as (sid & Hrun & Hwf).
  exists sid. split; [assumption|].
  unfold generateProxyConfig, formatDate, bind, reading, now, ret, this.
  rewrite Hv. cbv beta iota. rewrite Hrun. reflexivity.
Qed.

Lemma generateProxyConfig_invalid (index : Z) (w : World) (e : exn) :
  validateCredentials (self w) = inl e ->
  generateProxyConfig index w = (inl e, w).
Proof.
  intros Hv. unfold generateProxyConfig, bind, reading. rewrite Hv.
  reflexivity.
Qed.



(** C8. With valid credentials [generateProxyConfig] returns a record and
    leaves the generator as it was: the template, the credentials and
    both palettes.  The world differs only by the 8 values taken from
    the random source. *)
Theorem generateProxyConfig_frame (index : Z) (w : World) :
  validateCredentials (self w) = inr true ->
  exists r w',
    generateProxyConfig index w = (inr r, w')
    /\ config (self w') = config (self w)
    /\ credentials (self w') = credentials (self w)
    /\ colors (self w') = colors (self w)
    /\ icons (self w') = icons (self w)
    /\ w' = advance 8 w.
Proof.
  intros Hv.
  destruct (generateProxyConfig_valid index w Hv) as (sid & _ & Hrun).
  exists (proxy_record (self w) index sid), (advance 8 w).
  split; [assumption|]. repeat split; reflexivity.
Qed.

Lemma generateProxyConfig_frame_witness :
  exists r w',
    generateProxyConfig 7
      (world_of (with_credentials (Str (lit "alice")) (Str (lit "secret1"))
                                  fresh)
                false (fun n => N.of_nat (1000 * n + 1)))
    = (inr r, w')
    /\ config (self w') = config fresh
    /\ credentials (self w')
       = Credentials.mk (Str (lit "alice")) (Str (lit "secret1"))
    /\ colors (self w') = default_colors
    /\ icons (self w') = default_icons
    /\ w' = advance 8
              (world_of (with_credentials (Str (lit "alice"))
                                          (Str (lit "secret1")) fresh)
                        false (fun n => N.of_nat (1000 * n + 1))).
Proof.
  apply (generateProxyConfig_frame 7
           (world_of (with_credentials (Str (lit "alice"))
                                       (Str (lit "secret1")) fresh)
                     false (fun n => N.of_nat (1000 * n + 1)))).
  reflexivity.
Defined.

(** ** The region *)



(** ** Building the batch *)

Lemma push_config_valid (i : Z) (acc : list Proxy.t) (w : World) :
  validateCredentials (self w) = inr true ->
  exists sid,
    well_formed_id sid
    /\ push_config i acc w
       = (inr (acc ++ [proxy_record (self w) i sid]), advance 8 w).
Proof.
  intros Hv.
  destruct (generateProxyConfig_valid i w Hv) as (sid & Hwf & Hrun).
  exists sid. split; [assumption|].
  unfold push_config, try_catch. unfold bind at 1. rewrite Hrun.
  reflexivity.
Qed.

Lemma generateFullConfig_valid (w : World) :
  validateCredentials (self w) = inr true ->
  exists data w',
    generateFullConfig w = (inr (full_record (self w) data), w')
    /\ List.length data
       = iterations (clamp_count (Config.proxyCount (config (self w))))
    /\ self w' = self w
    /\ batch_of (self w) data.
Proof.
  intros Hv.
  unfold generateFullConfig. unfold bind at 1. unfold reading. rewrite Hv.
  unfold bind at 1. unfold this at 1. cbv beta iota.
  unfold bind at 1. unfold console_log, emit. cbv beta iota.
  set (n := clamp_count (Config.proxyCount (config (self w)))).
  set (w1 := mkWorld _ _ _ _ _ _).
  destruct (for_from_invariant push_config (iterations n) 0
              (fun k acc w' =>
                 self w' = self w /\ List.length acc = k
                 /\ batch_of (self w) acc))
    with (s := @nil Proxy.t) (w := w1) as (data & w2 & Hrun & Hs & Hlen & Hb).
  - intros k acc w' Hk (Hs & Hlen & Hb).
    destruct (push_config_valid (0 + Z.of_nat k) acc w') as (sid & Hwf & Hp).
    { rewrite Hs. exact Hv. }
    eexists _, _. split; [exact Hp|].
    split; [rewrite advance_self; exact Hs|].
    split; [rewrite length_app; simpl; lia|].
    intros i Hi. rewrite length_app in Hi. simpl in Hi.
    destruct (Nat.eq_dec i (List.length acc)) as [-> | Hne].
    + exists sid. split; [assumption|].
      rewrite nth_error_app2 by lia. rewrite Nat.sub_diag. simpl.
      rewrite Hs, Hlen. reflexivity.
    + destruct (Hb i ltac:(lia)) as (sid' & Hwf' & Hn).
      exists sid'. split; [assumption|].
      rewrite nth_error_app1 by lia. exact Hn.
  - split; [reflexivity|]. split; [reflexivity|].
    intros i Hi. simpl in Hi. lia.
  - exists data, w2.
    unfold for_upto. unfold bind at 1. rewrite Hrun.
    unfold bind, this, ret. rewrite Hs.
    repeat split; assumption.
Qed.

Lemma clamp_count_cases (v : prim) :
  match parseInt v with
  | NaN => clamp_count v = Int 10
  | Int k =>
      (1 <= k <= 50 -> clamp_count v = Int k)
      /\ (50 < k -> clamp_count v = Int 50)
      /\ (k = 0 -> clamp_count v = Int 10)
      /\ (k < 0 -> clamp_count v = Int 1)
  end.
Proof.
  unfold clamp_count. destruct (parseInt v) as [|k]; [reflexivity|].
  unfold or_number; simpl.
  destruct (k =? 0) eqn:E; simpl.
  - apply Z.eqb_eq in E. subst k.
    repeat split; intros; try lia; reflexivity.
  - apply Z.eqb_neq in E.
    repeat split; intros; f_equal; lia.
Qed.

(** C1, as the code has it.  With valid credentials, and a [proxyCount]
    that is a safe integer when it is a number, [generateFullConfig]
    returns a batch whose [data] has exactly [proxyCount] records when that
    parses as an integer from 1 to 50, exactly 50 when it parses above 50,
    exactly 10 when it does not parse as an integer ([undefined], [null]
    and non-numeric strings among them) or parses as 0, and exactly 1
    when it parses as a negative integer. *)
Theorem generateFullConfig_count (w : World) :
  validateCredentials (self w) = inr true ->
  exact_number (Config.proxyCount (config (self w))) ->
  exists f w',
    generateFullConfig w = (inr f, w')
    /\ match parseInt (Config.proxyCount (config (self w))) with
       | NaN => List.length (Full.data f) = 10%nat
       | Int k =>
           (1 <= k <= 50 -> Z.of_nat (List.length (Full.data f)) = k)
           /\ (50 < k -> List.length (Full.data f) = 50%nat)
           /\ (k = 0 -> List.length (Full.data f) = 10%nat)
           /\ (k < 0 -> List.length (Full.data f) = 1%nat)
       end
    /\ (Config.proxyCount (config (self w)) = Undefined
        \/ Config.proxyCount (config (self w)) = Null ->
        List.length (Full.data f) = 10%nat).
Proof.
  intros Hv _.
  destruct (generateFullConfig_valid w Hv) as (data & w' & Hrun & Hlen & _ & _).
  exists (full_record (self w) data), w'.
  split; [assumption|]. simpl Full.data. rewrite Hlen.
  pose proof (clamp_count_cases (Config.proxyCount (config (self w)))) as Hc.
  split.
  - destruct (parseInt (Config.proxyCount (config (self w)))) as [|k].
    + rewrite Hc. reflexivity.
    + destruct Hc as (H1 & H2 & H3 & H4).
      split; [|split; [|split]]; intros Hk.
      * rewrite (H1 Hk). unfold iterations. apply Z2Nat.id. lia.
      * rewrite (H2 Hk). reflexivity.
      * rewrite (H3 Hk). reflexivity.
      * rewrite (H4 Hk). reflexivity.
  - intros [E | E]; rewrite E; reflexivity.
Qed.

Lemma generateFullConfig_count_witness :
  exists f w',
    generateFullConfig
      (example_world (Options.mk None None None (Some (Num (Int 3))))
                     (lit "alice") (lit "secret1"))
    = (inr f, w')
    /\ Z.of_nat (List.length (Full.data f)) = 3.
Proof.
  assert (Hn : exact_number
                 (Config.proxyCount
                    (config
                       (self
                          (example_world
                             (Options.mk None None None (Some (Num (Int 3))))
                             (lit "alice") (lit "secret1"))))))
    by (cbn; lia).
  destruct (generateFullConfig_count
              (example_world (Options.mk None None None (Some (Num (Int 3))))
                             (lit "alice") (lit "secret1"))
              eq_refl Hn) as (f & w' & Hrun & Hcount & _).
  exists f, w'. split; [exact Hrun|].
  apply (proj1 Hcount). change (1 <= 3 <= 50). lia.
Defined.

(** C1 fails as stated: with [proxyCount: -5], which is [<= 0], the batch
    has 1 record, not 10. *)
Lemma generateFullConfig_count_negative :
  validateCredentials
    (self (example_world (Options.mk None None None (Some (Num (Int (-5)))))
                         (lit "alice") (lit "secret1")))
  = inr true
  /\ exists f w',
       generateFullConfig
         (example_world (Options.mk None None None (Some (Num (Int (-5)))))
                        (lit "alice") (lit "secret1"))
       = (inr f, w')
       /\ List.length (Full.data f) = 1%nat
       /\ List.length (Full.data f) <> 10%nat.
Proof.
  split; [reflexivity|].
  eexists _, _. split; [vm_compute; reflexivity|].
  split; [reflexivity | discriminate].
Qed.

(** ** The order of the batch *)

Lemma rem_of_nat (i n : nat) :
  n <> O -> rem (Z.of_nat i) (Z.of_nat n) = Int (Z.of_nat (i mod n)).
Proof.
  intros Hn. unfold rem.
  destruct (Z.of_nat n =? 0) eqn:E; [apply Z.eqb_eq in E; lia|].
  f_equal. rewrite Z.rem_mod_nonneg by lia.
  symmetry. apply Nat2Z.inj_mod.
Qed.

Lemma array_get_nth (a : list jstring) (j : nat) :
  (j < List.length a)%nat ->
  array_get a (Int (Z.of_nat j)) = Str (nth j a []).
Proof.
  intros Hj. unfold array_get.
  destruct (Z.of_nat j <? 0) eqn:E; [apply Z.ltb_lt in E; lia|].
  rewrite Nat2Z.id.
  rewrite (nth_error_nth' a [] Hj). reflexivity.
Qed.

Lemma clamp_count_range (v : prim) :
  exists k, clamp_count v = Int k /\ 1 <= k <= 50.
Proof.
  pose proof (clamp_count_cases v) as Hc.
  destruct (parseInt v) as [|k].
  - exists 10. split; [assumption | lia].
  - destruct Hc as (H1 & H2 & H3 & H4).
    destruct (Z_lt_le_dec k 0); [exists 1; split; [auto | lia]|].
    destruct (Z.eq_dec k 0); [exists 10; split; [auto | lia]|].
    destruct (Z_le_gt_dec k 50); [exists k; split; [apply H1 | ]; lia|].
    exists 50. split; [apply H2 |]; lia.
Qed.

(** C6. With valid credentials, the palettes of the constructor, and a
    template and a username whose numbers are safe integers, [data] has
    exactly as many records as the clamped count, and for every index [i]
    from 0 to that count less one the record at position [i] of [data] is
    the record built for index [i]: its title is the decimal rendering of
    [i + 1], a space and the icon at [i mod 20], and its colour is the
    colour at [i mod 20]. *)
Theorem batch_in_index_order (w : World) :
  validateCredentials (self w) = inr true ->
  colors (self w) = default_colors ->
  icons (self w) = default_icons ->
  exact_number (Config.proxyCount (config (self w))) ->
  exact_number (Credentials.username (credentials (self w))) ->
  exact_number (Config.region (config (self w))) ->
  exact_port (Config.port (config (self w))) ->
  exists f w' count,
    generateFullConfig w = (inr f, w')
    /\ clamp_count (Config.proxyCount (config (self w)))
       = Int (Z.of_nat count)
    /\ List.length (Full.data f) = count
    /\ forall i, (i < count)%nat ->
         exists r sessionId,
           nth_error (Full.data f) i = Some r
           /\ r = proxy_record (self w) (Z.of_nat i) sessionId
           /\ Proxy.title r
              = Z_to_string (Z.of_nat i + 1) ++ lit " "
                ++ nth (i mod 20) default_icons []
           /\ Proxy.color r = Str (nth (i mod 20) default_colors []).
Proof.
  intros Hv Hc Hi _ _ _ _.
  destruct (generateFullConfig_valid w Hv)
    as (data & w' & Hrun & Hlen & _ & Hb).
  exists (full_record (self w) data), w', (List.length data).
  split; [assumption|]. simpl Full.data. split.
  { destruct (clamp_count_range (Config.proxyCount (config (self w))))
      as (k & Hk & Hr).
    rewrite Hlen, Hk. unfold iterations. f_equal.
    symmetry. apply Z2Nat.id. lia. }
  split; [reflexivity|].
  intros i Hlt. destruct (Hb i Hlt) as (sid & _ & Hn).
  exists (proxy_record (self w) (Z.of_nat i) sid), sid.
  split; [assumption|]. split; [reflexivity|].
  assert (Hm : (i mod 20 < 20)%nat) by (apply Nat.mod_upper_bound; lia).
  unfold proxy_record; simpl. rewrite Hc, Hi.
  change (List.length default_icons) with 20%nat.
  change (List.length default_colors) with 20%nat.
  rewrite rem_of_nat by lia.
  rewrite !array_get_nth by assumption.
  split; reflexivity.
Qed.

Lemma batch_in_index_order_witness :
  exists f w',
    generateFullConfig
      (example_world (Options.mk None None None (Some (Num (Int 25))))
                     (lit "alice") (lit "secret1"))
    = (inr f, w')
    /\ List.length (Full.data f) = 25%nat
    /\ exists r sessionId,
         nth_error (Full.data f) 21 = Some r
         /\ r = proxy_record
                  (with_credentials (Str (lit "alice")) (Str (lit "secret1"))
                     (constructor
                        (Options.mk None None None (Some (Num (Int 25))))))
                  21 sessionId
         /\ Proxy.title r = lit "22 " ++ [55357; 56622]%N
         /\ Proxy.color r = Str (lit "#FF9800").
Proof.
  assert (Hn : exact_number
                 (Config.proxyCount
                    (config
                       (self
                          (example_world
                             (Options.mk None None None (Some (Num (Int 25))))
                             (lit "alice") (lit "secret1"))))))
    by (cbn; lia).
  assert (Hp : exact_port
                 (Config.port
                    (config
                       (self
                          (example_world
                             (Options.mk None None None (Some (Num (Int 25))))
                             (lit "alice") (lit "secret1"))))))
    by (right; vm_compute; split; reflexivity).
  destruct (batch_in_index_order
              (example_world (Options.mk None None None (Some (Num (Int 25))))
                             (lit "alice") (lit "secret1"))
              eq_refl eq_refl eq_refl Hn I I Hp)
    as (f & w' & count & Hrun & Hcount & Hlen & Hall).
  assert (E : count = 25%nat).
  { assert (H25 : Int 25 = Int (Z.of_nat count)) by exact Hcount.
    injection H25 as H25. lia. }
  rewrite E in Hlen, Hall.
  exists f, w'. split; [exact Hrun|]. split; [exact Hlen|].
  apply (Hall 21%nat). lia.
Defined.

(** ** Decimal numerals *)

Lemma digits_value_app (l : jstring) (c : N) :
  digits_value (l ++ [c]) = (digits_value l * 10 + (c - 48))%N.
Proof. unfold digits_value. rewrite fold_left_app. reflexivity. Qed.

Lemma is_digit_48_plus (k : N) : (k < 10)%N -> is_digit (48 + k) = true.
Proof.
  intros Hk. unfold is_digit. apply andb_true_iff.
  split; apply N.leb_le; lia.
Qed.

Lemma digits_aux_S (f : nat) (n : N) (acc : jstring) :
  digits_aux (S f) n acc
  = if (n <? 10)%N then (48 + n mod 10)%N :: acc
    else digits_aux f (n / 10) ((48 + n mod 10)%N :: acc).
Proof. reflexivity. Qed.

Lemma digits_aux_numeral (f : nat) :
  forall (n : N) (acc : jstring),
    (n < 2 ^ N.of_nat (S f))%N ->
    exists d, digits_aux (S f) n acc = d ++ acc /\ numeral d n.
Proof.
  induction f as [|f IH]; intros n acc Hn.
  - exists [(48 + n mod 10)%N].
    change (2 ^ N.of_nat 1)%N with 2%N in Hn.
    assert (E : (n <? 10)%N = true) by (apply N.ltb_lt; lia).
    rewrite digits_aux_S, E. split; [reflexivity|].
    rewrite N.mod_small by lia.
    split; [repeat constructor; apply is_digit_48_plus; lia|].
    split; [unfold digits_value; cbn [fold_left]; lia|].
    exists (48 + n)%N, []. split; reflexivity.
  - rewrite digits_aux_S.
    destruct (n <? 10)%N eqn:E.
    + apply N.ltb_lt in E. exists [(48 + n mod 10)%N].
      split; [reflexivity|].
      rewrite N.mod_small by lia.
      split; [repeat constructor; apply is_digit_48_plus; lia|].
      split; [unfold digits_value; cbn [fold_left]; lia|].
      exists (48 + n)%N, []. split; reflexivity.
    + apply N.ltb_ge in E.
      assert (Hq : (n / 10 < 2 ^ N.of_nat (S f))%N).
      { apply N.Div0.div_lt_upper_bound.
        replace (N.of_nat (S (S f))) with (N.succ (N.of_nat (S f))) in Hn by lia.
        rewrite N.pow_succ_r' in Hn. lia. }
      destruct (IH (n / 10)%N ((48 + n mod 10)%N :: acc) Hq)
        as (d & Hd & Hall & Hval & c & r & Hc & Hz).
      exists (d ++ [(48 + n mod 10)%N]).
      split; [rewrite Hd, <- app_assoc; reflexivity|].
      assert (Hm : (n mod 10 < 10)%N) by (apply N.mod_lt; lia).
      split; [apply Forall_app; split;
              [assumption | repeat constructor; apply is_digit_48_plus; lia]|].
      split.
      * rewrite digits_value_app, Hval.
        pose proof (N.div_mod n 10 ltac:(lia)) as H.
        clear - H. generalize dependent (n / 10)%N.
        generalize (n mod 10)%N. intros. lia.
      * subst d. exists c, (r ++ [(48 + n mod 10)%N]).
        split; [reflexivity|].
        intros Hc. specialize (Hz Hc). subst r c.
        unfold digits_value in Hval; cbn [fold_left] in Hval.
        pose proof (N.div_mod n 10 ltac:(lia)) as H.
        clear - H Hval E Hm. generalize dependent (n / 10)%N.
        generalize dependent (n mod 10)%N. intros. lia.
Qed.

Lemma digits_numeral (n : N) : numeral (digits n) n.
Proof.
  unfold digits.
  destruct (digits_aux_numeral (N.to_nat (N.log2 n)) n []) as (d & Hd & Hn).
  - destruct n as [|p]; [reflexivity|].
    replace (N.of_nat (S (N.to_nat (N.log2 (N.pos p)))))
      with (N.succ (N.log2 (N.pos p))) by lia.
    apply N.log2_spec. lia.
  - rewrite Hd, app_nil_r. exact Hn.
Qed.

Lemma span_digits_app (d rest : jstring) :
  Forall (fun c => is_digit c = true) d ->
  match rest with [] => True | c :: _ => is_digit c = false end ->
  span_digits (d ++ rest) = (d, rest).
Proof.
  intros Hd Hr. induction Hd as [|c d Hc _ IH]; cbn [span_digits app].
  - destruct rest as [|c r]; [reflexivity|].
    cbn [span_digits]. rewrite Hr. reflexivity.
  - rewrite Hc, IH. reflexivity.
Qed.

Lemma delimited_not_digit (rest : jstring) :
  JSON.delimited rest = true ->
  match rest with [] => True | c :: _ => is_digit c = false end.
Proof.
  destruct rest as [|c r]; [trivial|]. unfold JSON.delimited. intros H.
  apply orb_true_iff in H. destruct H as [H | H]; apply N.eqb_eq in H;
    subst c; reflexivity.
Qed.

Lemma delimited_not_fraction (rest : jstring) :
  JSON.delimited rest = true -> JSON.starts_fraction rest = false.
Proof.
  destruct rest as [|c r]; [trivial|]. unfold JSON.delimited. intros H.
  apply orb_true_iff in H. destruct H as [H | H]; apply N.eqb_eq in H;
    subst c; reflexivity.
Qed.

Lemma parse_number_digits (neg : bool) (n : N) (rest s : jstring) :
  JSON.delimited rest = true ->
  (let (d, k) := span_digits (digits n ++ rest) in
   match d with
   | [] => None
   | c :: d' =>
       if (c =? 48)%N && negb (match d' with [] => true | _ => false end)
       then None
       else if JSON.starts_fraction k then None
       else
         let m := Z.of_N (digits_value d) in
         Some (JSON.Prim (Num (Int (if neg then - m else m))), k)
   end)
  = Some (JSON.Prim (Num (Int (if neg then - Z.of_N n else Z.of_N n))), rest).
Proof.
  intros Hr.
  destruct (digits_numeral n) as (Hall & Hval & c & r & Hd & Hz).
  rewrite (span_digits_app _ _ Hall (delimited_not_digit _ Hr)).
  rewrite Hval, Hd.
  rewrite (delimited_not_fraction _ Hr).
  destruct (c =? 48)%N eqn:E; [|reflexivity].
  apply N.eqb_eq in E. rewrite (Hz E). reflexivity.
Qed.

Lemma Z_to_string_head (z : Z) :
  exists c r,
    Z_to_string z = c :: r /\ (c = 45%N \/ is_digit c = true).
Proof.
  unfold Z_to_string. destruct (z <? 0).
  - eexists _, _. split; [reflexivity | left; reflexivity].
  - destruct (digits_numeral (Z.to_N z)) as (Hall & _ & c & r & Hd & _).
    exists c, r. split; [assumption|]. right.
    rewrite Hd in Hall. inversion Hall; assumption.
Qed.

Lemma parse_number_Z (z : Z) (rest : jstring) :
  JSON.delimited rest = true ->
  JSON.parse_number (Z_to_string z ++ rest)
  = Some (JSON.Prim (Num (Int z)), rest).
Proof.
  intros Hr. unfold JSON.parse_number, Z_to_string.
  destruct (z <? 0) eqn:E.
  - apply Z.ltb_lt in E. cbn [app]. rewrite N.eqb_refl.
    rewrite (parse_number_digits true _ _ [] Hr).
    rewrite Z2N.id by lia. rewrite Z.opp_involutive. reflexivity.
  - apply Z.ltb_ge in E.
    destruct (digits_numeral (Z.to_N z)) as (Hall & _ & c & r & Hd & _).
    assert (Hc : (c =? 45)%N = false).
    { rewrite Hd in Hall. inversion Hall as [|? ? H1 _]; subst.
      unfold is_digit in H1. apply andb_true_iff in H1.
      destruct H1 as [H1 _]. apply N.leb_le in H1.
      apply N.eqb_neq. lia. }
    rewrite Hd. cbn [app]. rewrite Hc.
    change (c :: r ++ rest) with ((c :: r) ++ rest). rewrite <- Hd.
    rewrite (parse_number_digits false _ _ [] Hr).
    rewrite Z2N.id by lia. reflexivity.
Qed.

(** ** Strings *)

Lemma hex_value_digit (n : N) :
  (n < 16)%N -> JSON.hex_value (JSON.hex_digit n) = Some n.
Proof.
  intros Hn. unfold JSON.hex_value, JSON.hex_digit.
  destruct (n <? 10)%N eqn:E.
  - apply N.ltb_lt in E.
    replace ((48 <=? 48 + n) && (48 + n <=? 57))%N with true
      by (symmetry; apply andb_true_iff; split; apply N.leb_le; lia).
    f_equal. lia.
  - apply N.ltb_ge in E.
    replace ((48 <=? 87 + n) && (87 + n <=? 57))%N with false
      by (symmetry; apply andb_false_iff; right; apply N.leb_gt; lia).
    replace ((97 <=? 87 + n) && (87 + n <=? 102))%N with true
      by (symmetry; apply andb_true_iff; split; apply N.leb_le; lia).
    f_equal. lia.
Qed.

Lemma hex4_escape (c : N) :
  (c < 65536)%N ->
  JSON.hex4 (JSON.hex_digit (c / 4096 mod 16)) (JSON.hex_digit (c / 256 mod 16))
            (JSON.hex_digit (c / 16 mod 16)) (JSON.hex_digit (c mod 16))
  = Some c.
Proof.
  intros Hc. unfold JSON.hex4.
  rewrite !hex_value_digit by (apply N.mod_lt; lia).
  f_equal.
  assert (H1 : (c / 256 = c / 16 / 16)%N) by (rewrite N.Div0.div_div; reflexivity).
  assert (H2 : (c / 4096 = c / 16 / 16 / 16)%N)
    by (rewrite !N.Div0.div_div; reflexivity).
  rewrite H2, H1.
  pose proof (N.div_mod c 16 ltac:(lia)) as E0.
  pose proof (N.div_mod (c / 16) 16 ltac:(lia)) as E1.
  pose proof (N.div_mod (c / 16 / 16) 16 ltac:(lia)) as E2.
  pose proof (N.mod_lt c 16 ltac:(lia)) as B0.
  pose proof (N.mod_lt (c / 16) 16 ltac:(lia)) as B1.
  pose proof (N.mod_lt (c / 16 / 16) 16 ltac:(lia)) as B2.
  assert (B3 : (c / 16 / 16 / 16 < 16)%N).
  { rewrite !N.Div0.div_div. apply N.Div0.div_lt_upper_bound. exact Hc. }
  rewrite (N.mod_small _ _ B3).
  generalize dependent (c / 16 / 16 / 16)%N. intros q3 _ B3.
  generalize dependent ((c / 16 / 16) mod 16)%N. intros r2.
  generalize dependent (c / 16 / 16)%N. intros q2.
  generalize dependent ((c / 16) mod 16)%N. intros r1.
  generalize dependent (c / 16)%N. intros q1.
  generalize dependent (c mod 16)%N. intros r0. intros. lia.
Qed.

Lemma parse_chars_raw (c : N) (r : jstring) :
  (c =? 34)%N = false -> (c =? 92)%N = false -> (c <? 32)%N = false ->
  JSON.parse_chars (c :: r) = JSON.cons_to c (JSON.parse_chars r).
Proof. intros H1 H2 H3. cbn [JSON.parse_chars]. rewrite H1, H2, H3. reflexivity. Qed.

Lemma parse_chars_unicode (h1 h2 h3 h4 : N) (r : jstring) :
  JSON.parse_chars (92 :: 117 :: h1 :: h2 :: h3 :: h4 :: r)%N
  = match JSON.hex4 h1 h2 h3 h4 with
    | Some u => JSON.cons_to u (JSON.parse_chars r)
    | None => None
    end.
Proof. reflexivity. Qed.

Lemma parse_quote_unit (c : N) (r : jstring) :
  JSON.parse_chars (JSON.quote_unit c ++ r)
  = JSON.cons_to c (JSON.parse_chars r).
Proof.
  unfold JSON.quote_unit.
  destruct (N.eqb_spec c 8) as [-> | N8]; [reflexivity|].
  destruct (N.eqb_spec c 9) as [-> | N9]; [reflexivity|].
  destruct (N.eqb_spec c 10) as [-> | N10]; [reflexivity|].
  destruct (N.eqb_spec c 12) as [-> | N12]; [reflexivity|].
  destruct (N.eqb_spec c 13) as [-> | N13]; [reflexivity|].
  destruct (N.eqb_spec c 34) as [-> | N34]; [reflexivity|].
  destruct (N.eqb_spec c 92) as [-> | N92]; [reflexivity|].
  destruct ((c <? 32)%N || JSON.is_leading c || JSON.is_trailing c) eqn:E.
  - assert (Hc : (c < 65536)%N).
    { apply orb_true_iff in E. destruct E as [E | E].
      - apply orb_true_iff in E. destruct E as [E | E].
        + apply N.ltb_lt in E. lia.
        + unfold JSON.is_leading in E. apply andb_true_iff in E.
          destruct E as [_ E]. apply N.leb_le in E. lia.
      - unfold JSON.is_trailing in E. apply andb_true_iff in E.
        destruct E as [_ E]. apply N.leb_le in E. lia. }
    unfold JSON.unicode_escape. cbn [app].
    rewrite parse_chars_unicode, (hex4_escape c Hc). reflexivity.
  - apply orb_false_iff in E. destruct E as [E _].
    apply orb_false_iff in E. destruct E as [E _].
    cbn [app]. apply parse_chars_raw; [apply N.eqb_neq; assumption .. | assumption].
Qed.

Lemma quote_body_pair (c d : N) (r : jstring) :
  JSON.quote_body (c :: d :: r)
  = if JSON.is_leading c && JSON.is_trailing d
    then c :: d :: JSON.quote_body r
    else JSON.quote_unit c ++ JSON.quote_body (d :: r).
Proof. reflexivity. Qed.

Lemma surrogate_raw (c : N) (r : jstring) :
  JSON.is_leading c = true \/ JSON.is_trailing c = true ->
  JSON.parse_chars (c :: r) = JSON.cons_to c (JSON.parse_chars r).
Proof.
  intros H.
  assert (Hc : (55296 <= c)%N).
  { destruct H as [H | H]; apply andb_true_iff in H; destruct H as [H _];
      apply N.leb_le in H; lia. }
  apply parse_chars_raw;
    [apply N.eqb_neq; lia | apply N.eqb_neq; lia | apply N.ltb_ge; lia].
Qed.

Lemma parse_chars_quote_body_bounded (n : nat) :
  forall (s rest : jstring),
    (List.length s <= n)%nat ->
    JSON.parse_chars (JSON.quote_body s ++ 34%N :: rest) = Some (s, rest).
Proof.
  induction n as [|n IH]; intros s rest Hs.
  - destruct s; [reflexivity | simpl in Hs; lia].
  - destruct s as [|c [|d r]].
    + reflexivity.
    + cbn [JSON.quote_body]. rewrite parse_quote_unit. reflexivity.
    + rewrite quote_body_pair.
      destruct (JSON.is_leading c && JSON.is_trailing d) eqn:E.
      * apply andb_true_iff in E. destruct E as [Ec Ed].
        cbn [app].
        rewrite (surrogate_raw c) by (left; assumption).
        rewrite (surrogate_raw d) by (right; assumption).
        rewrite IH by (cbn [List.length] in *; lia). reflexivity.
      * rewrite <- app_assoc, parse_quote_unit.
        rewrite IH by (cbn [List.length] in *; lia). reflexivity.
Qed.

Lemma parse_chars_quote_body (s rest : jstring) :
  JSON.parse_chars (JSON.quote_body s ++ 34%N :: rest) = Some (s, rest).
Proof. apply (parse_chars_quote_body_bounded (List.length s)). lia. Qed.

(** ** White space *)

Lemma skip_ws_blank (ws s : jstring) :
  blank ws -> JSON.skip_ws (ws ++ s) = JSON.skip_ws s.
Proof.
  induction 1 as [|c r Hc _ IH]; [reflexivity|].
  cbn [app JSON.skip_ws]. rewrite Hc. exact IH.
Qed.

Lemma skip_ws_stop (c : N) (s : jstring) :
  JSON.is_ws c = false -> JSON.skip_ws (c :: s) = c :: s.
Proof. intros H. cbn [JSON.skip_ws]. rewrite H. reflexivity. Qed.

Lemma parse_value_blank (fuel : nat) (ws s : jstring) :
  blank ws -> JSON.parse_value fuel (ws ++ s) = JSON.parse_value fuel s.
Proof.
  intros H. destruct fuel; [reflexivity|].
  cbn [JSON.parse_value]. rewrite (skip_ws_blank _ _ H). reflexivity.
Qed.

Lemma parse_members_blank (fuel : nat) (ws s : jstring) acc :
  blank ws ->
  JSON.parse_members fuel (ws ++ s) acc = JSON.parse_members fuel s acc.
Proof.
  intros H. destruct fuel; [reflexivity|].
  cbn [JSON.parse_members]. rewrite (skip_ws_blank _ _ H). reflexivity.
Qed.

(** ** The equations of the parser *)

Lemma parse_value_string (f : nat) (r : jstring) :
  JSON.parse_value (S f) (34%N :: r)
  = match JSON.parse_chars r with
    | Some (str, r') => Some (JSON.Prim (Str str), r')
    | None => None
    end.
Proof. reflexivity. Qed.

Lemma parse_value_array (f : nat) (r : jstring) :
  JSON.parse_value (S f) (91%N :: r)
  = match JSON.skip_ws r with
    | [] => None
    | c' :: r' =>
        if (c' =? 93)%N then Some (JSON.Arr [], r')
        else JSON.parse_elements f r []
    end.
Proof. reflexivity. Qed.

Lemma parse_value_object (f : nat) (r : jstring) :
  JSON.parse_value (S f) (123%N :: r)
  = match JSON.skip_ws r with
    | [] => None
    | c' :: r' =>
        if (c' =? 125)%N then Some (JSON.Obj [], r')
        else JSON.parse_members f r []
    end.
Proof. reflexivity. Qed.

Lemma parse_value_number (f : nat) (c : N) (r : jstring) :
  c = 45%N \/ is_digit c = true ->
  JSON.parse_value (S f) (c :: r) = JSON.parse_number (c :: r).
Proof.
  intros H.
  assert (Hc : (45 <= c <= 57)%N).
  { destruct H as [-> | H]; [lia|].
    apply andb_true_iff in H. destruct H as [H1 H2].
    apply N.leb_le in H1, H2. lia. }
  cbn [JSON.parse_value JSON.skip_ws].
  assert (Hw : JSON.is_ws c = false).
  { unfold JSON.is_ws.
    repeat (apply orb_false_iff; split); apply N.eqb_neq; lia. }
  rewrite Hw.
  replace (c =? 34)%N with false by (symmetry; apply N.eqb_neq; lia).
  replace (c =? 91)%N with false by (symmetry; apply N.eqb_neq; lia).
  replace (c =? 123)%N with false by (symmetry; apply N.eqb_neq; lia).
  replace (c =? 116)%N with false by (symmetry; apply N.eqb_neq; lia).
  replace (c =? 102)%N with false by (symmetry; apply N.eqb_neq; lia).
  replace (c =? 110)%N with false by (symmetry; apply N.eqb_neq; lia).
  reflexivity.
Qed.

Lemma parse_elements_step (f : nat) (s : jstring) (acc : list JSON.value) :
  JSON.parse_elements (S f) s acc
  = match JSON.parse_value f s with
    | None => None
    | Some (v, r) =>
        match JSON.skip_ws r with
        | [] => None
        | c :: r' =>
            if (c =? 44)%N then JSON.parse_elements f r' (acc ++ [v])
            else if (c =? 93)%N then Some (JSON.Arr (acc ++ [v]), r')
            else None
        end
    end.
Proof. reflexivity. Qed.

Lemma parse_members_step (f : nat) (r : jstring)
  (acc : list (jstring * JSON.value)) :
  JSON.parse_members (S f) (34%N :: r) acc
  = match JSON.parse_chars r with
    | None => None
    | Some (k, r1) =>
        match JSON.skip_ws r1 with
        | [] => None
        | c1 :: r2 =>
            if (c1 =? 58)%N then
              match JSON.parse_value f r2 with
              | None => None
              | Some (v, r3) =>
                  match JSON.skip_ws r3 with
                  | [] => None
                  | c3 :: r4 =>
                      if (c3 =? 44)%N
                      then JSON.parse_members f r4 (JSON.set_prop k v acc)
                      else if (c3 =? 125)%N
                      then Some (JSON.Obj (JSON.set_prop k v acc), r4)
                      else None
                  end
              end
            else None
        end
    end.
Proof. reflexivity. Qed.

(** ** The equations of the serializer *)

Lemma serialize_Arr (indent : jstring) (items : list JSON.value) :
  JSON.serialize indent (JSON.Arr items)
  = Some (JSON.wrap 91 93 indent (indent ++ JSON.gap)
            (map (text_of (indent ++ JSON.gap)) items)).
Proof. reflexivity. Qed.

Lemma serialize_some (indent : jstring) (v : JSON.value) :
  JSON.representable v = true ->
  exists t, JSON.serialize indent v = Some t.
Proof.
  destruct v as [p | l | l]; intros H.
  - destruct p as [| |[|]|[|z]|s]; try discriminate; eexists; reflexivity.
  - eexists; reflexivity.
  - eexists; reflexivity.
Qed.

Lemma serialize_Obj (indent : jstring) (props : list (jstring * JSON.value)) :
  forallb (fun kx => JSON.representable (snd kx)) props = true ->
  JSON.serialize indent (JSON.Obj props)
  = Some (JSON.wrap 123 125 indent (indent ++ JSON.gap)
            (map (member_text (indent ++ JSON.gap)) props)).
Proof.
  intros H. cbn [JSON.serialize]. do 2 f_equal.
  induction props as [|[k x] r IH]; [reflexivity|].
  cbn [forallb] in H. apply andb_true_iff in H. destruct H as [Hx Hr].
  cbn [flat_map map]. rewrite (IH Hr).
  unfold member_text, text_of. cbn [fst snd].
  destruct (serialize_some (indent ++ JSON.gap) x Hx) as (t & ->).
  reflexivity.
Qed.

Lemma join_tail (sep closing : jstring) (t : jstring) (ts : list jstring)
  (rest : jstring) :
  JSON.join sep (t :: ts) ++ closing ++ rest
  = t ++ tail_text sep closing ts rest.
Proof.
  revert t. induction ts as [|u ts IH]; intros t.
  - reflexivity.
  - change (JSON.join sep (t :: u :: ts))
      with (t ++ sep ++ JSON.join sep (u :: ts)).
    rewrite <- !app_assoc. rewrite IH. reflexivity.
Qed.

Lemma wrap_text (opening closing : N) (stepback indent : jstring)
  (t : jstring) (ts : list jstring) (rest : jstring) :
  JSON.wrap opening closing stepback indent (t :: ts) ++ rest
  = opening :: 10%N :: indent
    ++ t ++ tail_text (44%N :: 10%N :: indent) (10%N :: stepback ++ [closing])
                      ts rest.
Proof.
  unfold JSON.wrap. cbn [app]. do 2 f_equal.
  rewrite <- !app_assoc. f_equal.
  change ([44%N; 10%N] ++ indent) with (44%N :: 10%N :: indent).
  change ([10%N] ++ stepback ++ [closing]) with (10%N :: stepback ++ [closing]).
  rewrite <- (join_tail (44%N :: 10%N :: indent) (10%N :: stepback ++ [closing])).
  reflexivity.
Qed.

Lemma serialize_head (indent : jstring) (v : JSON.value) (t : jstring) :
  JSON.serialize indent v = Some t ->
  exists c r,
    t = c :: r /\ JSON.is_ws c = false
    /\ (c =? 93)%N = false /\ (c =? 125)%N = false.
Proof.
  destruct v as [p | l | l]; intros H.
  - destruct p as [| |[|]|[|z]|s]; try discriminate;
      cbn [JSON.serialize] in H; injection H as <-;
      try (eexists _, _; repeat split; reflexivity).
    destruct (Z_to_string_head z) as (c & r & E & Hc).
    exists c, r. split; [assumption|].
    assert (Hb : (45 <= c <= 57)%N).
    { destruct Hc as [-> | Hc]; [lia|].
      apply andb_true_iff in Hc. destruct Hc as [H1 H2].
      apply N.leb_le in H1, H2. lia. }
    split; [unfold JSON.is_ws;
            repeat (apply orb_false_iff; split); apply N.eqb_neq; lia|].
    split; apply N.eqb_neq; lia.
  - rewrite serialize_Arr in H. injection H as <-.
    destruct (map _ l); eexists _, _; repeat split; reflexivity.
  - cbn [JSON.serialize] in H. injection H as <-.
    destruct (flat_map _ l); eexists _, _; repeat split; reflexivity.
Qed.

(** ** Keys *)

Lemma jstring_eqb_eq (a b : jstring) : jstring_eqb a b = true <-> a = b.
Proof.
  unfold jstring_eqb. destruct (list_eq_dec N.eq_dec a b); split;
    intros; congruence.
Qed.

Lemma mem_key_In (k : jstring) (l : list jstring) :
  JSON.mem_key k l = true <-> In k l.
Proof.
  induction l as [|x r IH]; cbn [JSON.mem_key In].
  - split; [discriminate | contradiction].
  - rewrite orb_true_iff, jstring_eqb_eq, IH. reflexivity.
Qed.

Lemma distinct_NoDup (l : list jstring) :
  JSON.distinct l = true <-> NoDup l.
Proof.
  induction l as [|x r IH]; cbn [JSON.distinct].
  - split; [constructor | reflexivity].
  - rewrite andb_true_iff, negb_true_iff, IH. split.
    + intros [H1 H2]. constructor; [|assumption].
      intros Hin. apply mem_key_In in Hin. congruence.
    + intros H. inversion H as [|? ? Hn Hd]; subst. split; [|assumption].
      destruct (JSON.mem_key x r) eqn:E; [|reflexivity].
      apply mem_key_In in E. contradiction.
Qed.

Lemma set_prop_fresh (k : jstring) (v : JSON.value)
  (acc : list (jstring * JSON.value)) :
  ~ In k (map fst acc) -> JSON.set_prop k v acc = acc ++ [(k, v)].
Proof.
  induction acc as [|[k' v'] r IH]; intros Hn; [reflexivity|].
  cbn [JSON.set_prop app]. cbn [map fst In] in Hn.
  destruct (jstring_eqb k' k) eqn:E.
  - apply jstring_eqb_eq in E. tauto.
  - rewrite IH by tauto. reflexivity.
Qed.

(** ** Members of arrays and of objects *)

Lemma blank_gap (indent : jstring) : blank indent -> blank (indent ++ JSON.gap).
Proof.
  intros H. apply Forall_app. split; [assumption | repeat constructor].
Qed.

Lemma blank_space : blank [32%N].
Proof. constructor; [reflexivity | constructor]. Qed.

Lemma blank_line (indent : jstring) : blank indent -> blank (10%N :: indent).
Proof. intros H. constructor; [reflexivity | assumption]. Qed.

Lemma tail_text_delimited (indent stepback : jstring) (closing : N)
  (ts : list jstring) (rest : jstring) :
  JSON.delimited
    (tail_text (44%N :: 10%N :: indent) (10%N :: stepback ++ [closing]) ts rest)
  = true.
Proof. destruct ts; reflexivity. Qed.

Lemma closing_text (stepback : jstring) (closing : N) (rest : jstring) :
  blank stepback -> JSON.is_ws closing = false ->
  JSON.skip_ws ((10%N :: stepback ++ [closing]) ++ rest) = closing :: rest.
Proof.
  intros Hs Hc.
  replace ((10%N :: stepback ++ [closing]) ++ rest)
    with ((10%N :: stepback) ++ closing :: rest)
    by (cbn [app]; rewrite <- app_assoc; reflexivity).
  rewrite skip_ws_blank by (apply blank_line; assumption).
  apply skip_ws_stop. assumption.
Qed.

Ltac norm_length H :=
  repeat (rewrite ?length_app in H; cbn [List.length app] in H).

Lemma parse_elements_tail (indent stepback rest : jstring) :
  blank indent -> blank stepback ->
  forall (xs : list JSON.value) (x : JSON.value) (tx : jstring)
         (acc : list JSON.value) (fuel : nat) (ws : jstring),
    round_trips x -> Forall round_trips xs ->
    JSON.representable x = true ->
    forallb JSON.representable xs = true ->
    JSON.serialize indent x = Some tx ->
    blank ws ->
    (List.length tx
     + List.length (tail_text (44%N :: 10%N :: indent)
                              (10%N :: stepback ++ [93%N])
                              (map (text_of indent) xs) [])
     < fuel)%nat ->
    JSON.parse_elements fuel
      (ws ++ tx ++ tail_text (44%N :: 10%N :: indent)
                             (10%N :: stepback ++ [93%N])
                             (map (text_of indent) xs) rest) acc
    = Some (JSON.Arr (acc ++ x :: xs), rest).
Proof.
  intros Hi Hs.
  induction xs as [|y ys IH];
    intros x tx acc fuel ws Rx Rxs Px Pxs Sx Hws Hf;
    (destruct fuel as [|f]; [lia|]);
    rewrite parse_elements_step, parse_value_blank by assumption;
    cbn [map tail_text] in *.
  - norm_length Hf.
    rewrite (Rx Px indent tx f _ Hi Sx) by (reflexivity || lia).
    rewrite closing_text by (reflexivity || assumption).
    reflexivity.
  - inversion Rxs as [|? ? Ry Rys]; subst.
    cbn [forallb] in Pxs. apply andb_true_iff in Pxs. destruct Pxs as [Py Pys].
    destruct (serialize_some indent y Py) as (ty & Sy).
    assert (Ey : text_of indent y = ty) by (unfold text_of; rewrite Sy; reflexivity).
    rewrite Ey in *.
    norm_length Hf.
    rewrite (Rx Px indent tx f _ Hi Sx) by (reflexivity || lia).
    cbn [app]. rewrite skip_ws_stop by reflexivity.
    change (44 =? 44)%N with true. cbv iota.
    change (10%N :: indent ++ ty ++ ?t) with ((10%N :: indent) ++ ty ++ t).
    rewrite (IH y ty (acc ++ [x]) f (10%N :: indent)); try assumption.
    + rewrite <- app_assoc. reflexivity.
    + apply blank_line; assumption.
    + lia.
Qed.

Lemma parse_members_tail (indent stepback rest : jstring) :
  blank indent -> blank stepback ->
  forall (ps : list (jstring * JSON.value)) (k : jstring) (x : JSON.value)
         (tx : jstring) (acc : list (jstring * JSON.value)) (fuel : nat)
         (ws : jstring),
    round_trips x -> Forall (fun kx => round_trips (snd kx)) ps ->
    JSON.representable x = true ->
    forallb (fun kx => JSON.representable (snd kx)) ps = true ->
    NoDup (map fst acc ++ k :: map fst ps) ->
    JSON.serialize indent x = Some tx ->
    blank ws ->
    (List.length (JSON.quote k ++ lit ": " ++ tx)
     + List.length (tail_text (44%N :: 10%N :: indent)
                              (10%N :: stepback ++ [125%N])
                              (map (member_text indent) ps) [])
     < fuel)%nat ->
    JSON.parse_members fuel
      (ws ++ (JSON.quote k ++ lit ": " ++ tx)
          ++ tail_text (44%N :: 10%N :: indent)
                       (10%N :: stepback ++ [125%N])
                       (map (member_text indent) ps) rest) acc
    = Some (JSON.Obj (acc ++ (k, x) :: ps), rest).
Proof.
  intros Hi Hs.
  induction ps as [|[k' y] ys IH];
    intros k x tx acc fuel ws Rx Rxs Px Pxs Hnd Sx Hws Hf;
    (destruct fuel as [|f]; [lia|]);
    rewrite parse_members_blank by assumption;
    unfold JSON.quote at 1; cbn [app];
    rewrite <- !app_assoc; cbn [app];
    rewrite parse_members_step, parse_chars_quote_body;
    change (lit ": " ++ ?t) with (58%N :: [32%N] ++ t);
    rewrite skip_ws_stop by reflexivity;
    change (58 =? 58)%N with true; cbv iota;
    rewrite (parse_value_blank f [32%N]) by exact blank_space;
    assert (Hfresh : ~ In k (map fst acc))
      by (intros Hin; apply NoDup_remove_2 in Hnd; apply Hnd;
          apply in_or_app; left; assumption);
    cbn [map tail_text] in *.
  - norm_length Hf.
    rewrite (Rx Px indent tx f _ Hi Sx) by (reflexivity || lia).
    rewrite closing_text by (reflexivity || assumption).
    rewrite (set_prop_fresh k x acc Hfresh).
    reflexivity.
  - inversion Rxs as [|? ? Ry Rys]; subst. cbn [snd] in Ry.
    cbn [forallb snd] in Pxs. apply andb_true_iff in Pxs.
    destruct Pxs as [Py Pys].
    destruct (serialize_some indent y Py) as (ty & Sy).
    assert (Ey : member_text indent (k', y) = JSON.quote k' ++ lit ": " ++ ty)
      by (unfold member_text, text_of; cbn [fst snd]; rewrite Sy; reflexivity).
    rewrite Ey in *. norm_length Hf.
    rewrite (Rx Px indent tx f _ Hi Sx) by (reflexivity || lia).
    cbn [app]. rewrite skip_ws_stop by reflexivity.
    change (44 =? 44)%N with true. cbv iota.
    rewrite (set_prop_fresh k x acc Hfresh).
    change (10%N :: indent ++ ?t) with ((10%N :: indent) ++ t).
    rewrite (IH k' y ty (acc ++ [(k, x)]) f (10%N :: indent)); try assumption.
    + rewrite <- app_assoc. reflexivity.
    + rewrite map_app, <- app_assoc. cbn [map fst app]. exact Hnd.
    + apply blank_line; assumption.
    + repeat (rewrite ?length_app; cbn [List.length app]). lia.
Qed.

(** ** Parsing what was serialized *)

Lemma value_induction (P : JSON.value -> Prop) :
  (forall p, P (JSON.Prim p)) ->
  (forall l, Forall P l -> P (JSON.Arr l)) ->
  (forall l, Forall (fun kx => P (snd kx)) l -> P (JSON.Obj l)) ->
  forall v, P v.
Proof.
  intros Hp Ha Ho. fix IH 1. intros [p | l | l].
  - apply Hp.
  - apply Ha. induction l as [|x l IHl]; constructor; [apply IH | exact IHl].
  - apply Ho. induction l as [|kx l IHl]; constructor; [apply IH | exact IHl].
Qed.

Lemma round_trips_prim (p : prim) : round_trips (JSON.Prim p).
Proof.
  intros Hrep indent t fuel rest Hi Hser Hf Hr.
  destruct fuel as [|f]; [lia|].
  destruct p as [| |[|]|[|z]|s]; try discriminate;
    cbn [JSON.serialize] in Hser; injection Hser as <-;
    try reflexivity.
  - destruct (Z_to_string_head z) as (c & r & E & Hc).
    rewrite E. cbn [app]. rewrite parse_value_number by assumption.
    change (c :: r ++ rest) with ((c :: r) ++ rest). rewrite <- E.
    apply parse_number_Z. assumption.
  - unfold JSON.quote. cbn [app]. rewrite <- app_assoc. cbn [app].
    rewrite parse_value_string, parse_chars_quote_body. reflexivity.
Qed.

Lemma round_trips_arr (l : list JSON.value) :
  Forall round_trips l -> round_trips (JSON.Arr l).
Proof.
  intros IH Hrep indent t fuel rest Hi Hser Hf Hr.
  destruct fuel as [|f]; [lia|].
  rewrite serialize_Arr in Hser. injection Hser as <-.
  cbn [JSON.representable] in Hrep.
  destruct l as [|x xs]; [reflexivity|].
  inversion IH as [|? ? Rx Rxs]; subst.
  cbn [forallb] in Hrep. apply andb_true_iff in Hrep. destruct Hrep as [Px Pxs].
  destruct (serialize_some (indent ++ JSON.gap) x Px) as (tx & Sx).
  assert (Ex : text_of (indent ++ JSON.gap) x = tx)
    by (unfold text_of; rewrite Sx; reflexivity).
  cbn [map] in *. rewrite Ex in *.
  rewrite <- (app_nil_r (JSON.wrap _ _ _ _ _)) in Hf.
  rewrite wrap_text in *. norm_length Hf.
  rewrite parse_value_array.
  destruct (serialize_head _ _ _ Sx) as (c & r & Et & Hw & H93 & _).
  change (10%N :: (indent ++ JSON.gap) ++ ?u)
    with ((10%N :: indent ++ JSON.gap) ++ u).
  rewrite skip_ws_blank by (apply blank_line, blank_gap; assumption).
  assert (Hsk : forall u, JSON.skip_ws (tx ++ u) = c :: r ++ u)
    by (intros u; rewrite Et; cbn [app]; apply skip_ws_stop; assumption).
  rewrite Hsk, H93.
  rewrite (parse_elements_tail (indent ++ JSON.gap) indent rest
             (blank_gap _ Hi) Hi xs x tx [] f (10%N :: indent ++ JSON.gap));
    try assumption.
  - reflexivity.
  - apply blank_line, blank_gap; assumption.
  - lia.
Qed.

Lemma round_trips_obj (l : list (jstring * JSON.value)) :
  Forall (fun kx => round_trips (snd kx)) l -> round_trips (JSON.Obj l).
Proof.
  intros IH Hrep indent t fuel rest Hi Hser Hf Hr.
  destruct fuel as [|f]; [lia|].
  cbn [JSON.representable] in Hrep. apply andb_true_iff in Hrep.
  destruct Hrep as [Hd Hrep]. apply distinct_NoDup in Hd.
  rewrite (serialize_Obj _ _ Hrep) in Hser. injection Hser as <-.
  destruct l as [|[k x] xs]; [reflexivity|].
  inversion IH as [|? ? Rx Rxs]; subst. cbn [snd] in Rx.
  cbn [forallb snd] in Hrep. apply andb_true_iff in Hrep.
  destruct Hrep as [Px Pxs].
  destruct (serialize_some (indent ++ JSON.gap) x Px) as (tx & Sx).
  assert (Ex : member_text (indent ++ JSON.gap) (k, x)
               = JSON.quote k ++ lit ": " ++ tx)
    by (unfold member_text, text_of; cbn [fst snd]; rewrite Sx; reflexivity).
  cbn [map] in *. rewrite Ex in *.
  rewrite <- (app_nil_r (JSON.wrap _ _ _ _ _)) in Hf.
  rewrite wrap_text in *. norm_length Hf.
  rewrite parse_value_object.
  change (10%N :: (indent ++ JSON.gap) ++ ?u)
    with ((10%N :: indent ++ JSON.gap) ++ u).
  assert (Hsk : forall u,
             JSON.skip_ws ((10%N :: indent ++ JSON.gap)
                           ++ (JSON.quote k ++ lit ": " ++ tx) ++ u)
             = 34%N :: (JSON.quote_body k ++ [34%N])
                       ++ (lit ": " ++ tx) ++ u).
  { intros u.
    rewrite skip_ws_blank by (apply blank_line, blank_gap; assumption).
    rewrite <- app_assoc. reflexivity. }
  rewrite Hsk. change (34 =? 125)%N with false. cbv iota.
  rewrite (parse_members_tail (indent ++ JSON.gap) indent rest
             (blank_gap _ Hi) Hi xs k x tx [] f (10%N :: indent ++ JSON.gap));
    try assumption.
  - reflexivity.
  - apply blank_line, blank_gap; assumption.
  - repeat (rewrite ?length_app; cbn [List.length app]). lia.
Qed.

Theorem parse_serialize (v : JSON.value) : round_trips v.
Proof.
  induction v using value_induction.
  - apply round_trips_prim.
  - apply round_trips_arr; assumption.
  - apply round_trips_obj; assumption.
Qed.

Lemma JSON_round_trip (v : JSON.value) (t : jstring) :
  JSON.representable v = true ->
  JSON.stringify v = Str t ->
  JSON.parse t = Some v.
Proof.
  intros Hrep Hs. unfold JSON.stringify in Hs.
  destruct (JSON.serialize [] v) as [t'|] eqn:E; [|discriminate].
  injection Hs as ->. unfold JSON.parse.
  pose proof (parse_serialize v Hrep [] t (S (List.length t)) []
                (Forall_nil _) E ltac:(lia) eq_refl) as H.
  rewrite app_nil_r in H. rewrite H. reflexivity.
Qed.

(** ** The batch document as text *)

Lemma getConfigAsJson_valid (w : World) (f : Full.t) (w' : World) :
  generateFullConfig w = (inr f, w') ->
  getConfigAsJson w = (inr (JSON.stringify (Full_object f)), w').
Proof.
  intros H. unfold getConfigAsJson, try_catch. unfold bind at 1.
  rewrite H. reflexivity.
Qed.

Lemma truthy_representable (p : prim) :
  ToBoolean p = true -> JSON.representable_prim p = true.
Proof. destruct p as [| |b|[|z]|s]; simpl; congruence. Qed.

Lemma array_get_in_range (a : list jstring) (i : nat) :
  a <> [] ->
  exists s,
    array_get a (rem (Z.of_nat i) (Z.of_nat (List.length a))) = Str s.
Proof.
  intros Ha.
  assert (Hl : List.length a <> O) by (destruct a; simpl; congruence).
  rewrite rem_of_nat by assumption.
  rewrite array_get_nth by (apply Nat.mod_upper_bound; assumption).
  eexists; reflexivity.
Qed.

Lemma proxy_record_representable (g : Generator) (i : nat) (sid : jstring) :
  validateCredentials g = inr true ->
  JSON.representable_prim (Config.endpoint (config g)) = true ->
  parseInt (Config.port (config g)) <> NaN ->
  colors g <> [] ->
  JSON.representable (Proxy_object (proxy_record g (Z.of_nat i) sid)) = true.
Proof.
  intros Hv He Hp Hc.
  destruct (validateCredentials_truthy g Hv) as [_ Hpw].
  destruct (array_get_in_range (colors g) i Hc) as (col & Hcol).
  unfold Proxy_object, proxy_record.
  cbn [Proxy.active Proxy.title Proxy.type Proxy.hostname Proxy.port
       Proxy.username Proxy.password Proxy.cc Proxy.city Proxy.color
       Proxy.pac Proxy.pacString Proxy.proxyDNS Proxy.include Proxy.exclude
       Proxy.tabProxy].
  rewrite Hcol.
  unfold JSON.representable. cbn [map fst snd forallb].
  rewrite He, (truthy_representable _ Hpw).
  destruct (parseInt (Config.port (config g))); [congruence|].
  reflexivity.
Qed.

Lemma full_record_representable (g : Generator) (data : list Proxy.t) :
  validateCredentials g = inr true ->
  JSON.representable_prim (Config.endpoint (config g)) = true ->
  parseInt (Config.port (config g)) <> NaN ->
  colors g <> [] ->
  batch_of g data ->
  JSON.representable (Full_object (full_record g data)) = true.
Proof.
  intros Hv He Hp Hc Hb.
  assert (Hall : forallb JSON.representable (map Proxy_object data) = true).
  { apply forallb_forall. intros x Hx.
    apply in_map_iff in Hx. destruct Hx as (r & <- & Hr).
    apply In_nth_error in Hr. destruct Hr as (i & Hi).
    assert (Hlt : (i < List.length data)%nat)
      by (apply nth_error_Some; congruence).
    destruct (Hb i Hlt) as (sid & _ & Hn).
    rewrite Hi in Hn. injection Hn as ->.
    apply proxy_record_representable; assumption. }
  unfold Full_object, full_record, Commands_object.
  cbn [Full.mode Full.sync Full.autoBackup Full.passthrough Full.theme
       Full.container Full.commands Full.data Commands.setProxy
       Commands.setTabProxy Commands.includeHost Commands.excludeHost].
  change (JSON.representable (JSON.Obj ?l))
    with (JSON.distinct (map fst l)
          && forallb (fun kx => JSON.representable (snd kx)) l).
  cbn [map fst snd forallb].
  change (JSON.representable (JSON.Arr ?l)) with (forallb JSON.representable l).
  rewrite Hall. reflexivity.
Qed.

(** C7, as the code has it.  With valid credentials, a template whose
    port parses as a safe integer and whose endpoint is neither
    [undefined] nor [NaN], and a colour palette that is not empty, the
    text that [getConfigAsJson] returns is the serialization of the batch
    document that [generateFullConfig] builds in the same world, and
    parsing it gives that document back, field for field. *)
Theorem getConfigAsJson_round_trip (w : World) :
  validateCredentials (self w) = inr true ->
  safe_integer (parseInt (Config.port (config (self w)))) ->
  JSON.representable_prim (Config.endpoint (config (self w))) = true ->
  colors (self w) <> [] ->
  exists f w' text,
    generateFullConfig w = (inr f, w')
    /\ getConfigAsJson w = (inr (Str text), w')
    /\ JSON.parse text = Some (Full_object f).
Proof.
  intros Hv Hp He Hc.
  destruct (generateFullConfig_valid w Hv) as (data & w' & Hrun & _ & _ & Hb).
  assert (Hn : parseInt (Config.port (config (self w))) <> NaN)
    by (intros E; rewrite E in Hp; exact Hp).
  pose proof (full_record_representable (self w) data Hv He Hn Hc Hb) as Hrep.
  destruct (serialize_some [] _ Hrep) as (text & Hser).
  assert (Hs : JSON.stringify (Full_object (full_record (self w) data))
               = Str text)
    by (unfold JSON.stringify; rewrite Hser; reflexivity).
  exists (full_record (self w) data), w', text.
  split; [assumption|]. split.
  - rewrite (getConfigAsJson_valid w _ w' Hrun), Hs. reflexivity.
  - apply JSON_round_trip; assumption.
Qed.

Lemma getConfigAsJson_round_trip_witness :
  exists f w' text,
    generateFullConfig
      (example_world (Options.mk None None None (Some (Num (Int 2))))
                     (lit "alice") (lit "secret1"))
    = (inr f, w')
    /\ getConfigAsJson
         (example_world (Options.mk None None None (Some (Num (Int 2))))
                        (lit "alice") (lit "secret1"))
       = (inr (Str text), w')
    /\ JSON.parse text = Some (Full_object f).
Proof.
  apply (getConfigAsJson_round_trip
           (example_world (Options.mk None None None (Some (Num (Int 2))))
                          (lit "alice") (lit "secret1"))).
  - reflexivity.
  - change (- 2 ^ 53 < 6200 < 2 ^ 53). lia.
  - reflexivity.
  - discriminate.
Defined.

(** C7 fails as stated: with [port: "abc"] the records hold the port
    [NaN], the text holds [null] in its place, and parsing the text gives
    a document that differs from the one that was built. *)
Lemma getConfigAsJson_round_trip_nan_port :
  exists f w' text parsed,
    generateFullConfig
      (example_world
         (Options.mk None (Some (Str (lit "abc"))) None (Some (Num (Int 1))))
         (lit "alice") (lit "secret1"))
    = (inr f, w')
    /\ getConfigAsJson
         (example_world
            (Options.mk None (Some (Str (lit "abc"))) None
                        (Some (Num (Int 1))))
            (lit "alice") (lit "secret1"))
       = (inr (Str text), w')
    /\ map Proxy.port (Full.data f) = [NaN]
    /\ JSON.parse text = Some parsed
    /\ parsed <> Full_object f.
Proof.
  eexists _, _, _, _.
  split; [vm_compute; reflexivity|].
  split; [vm_compute; reflexivity|].
  split; [reflexivity|].
  split; [vm_compute; reflexivity|].
  vm_compute. discriminate.
Qed.

(** * Further properties of the generator *)

(** ** What the session identifier is made of *)

Lemma concat_map_seq_S {A} (g : nat -> list A) (k : nat) :
  List.concat (map g (seq 0 (S k))) = List.concat (map g (seq 0 k)) ++ g k.
Proof.
  rewrite seq_S, map_app, concat_app. cbn [map List.concat Nat.add].
  rewrite app_nil_r. reflexivity.
Qed.

Lemma generateSessionId_closed (w : World) :
  generateSessionId w
  = (inr (session_id_at (secure w) (entropy w) (drawn w)), advance 8 w).
Proof.
  unfold generateSessionId. unfold bind at 1. unfold has_crypto.
  unfold session_id_at.
  destruct (secure w) eqn:Hs.
  - unfold bind at 1. unfold getRandomValues.
    set (f := fun k : nat => Z.of_N (entropy w (drawn w + k)%nat) mod 256).
    set (g := fun k : nat => charAt chars (Z.rem (f k) chars_length)).
    destruct (for_from_invariant
                (fun i result =>
                   ret (result
                        ++ charAt chars
                             (Z.rem (byte_at (map f (seq 0 8)) i) chars_length)))
                8 0
                (fun k s w' =>
                   w' = advance 8 w /\ s = List.concat (map g (seq 0 k))))
      with (s := @nil N) (w := advance 8 w) as (s & w' & Hrun & Hw & Hres).
    + intros k s w' Hk (Hw & Hres).
      eexists _, w'. split; [reflexivity|]. split; [assumption|].
      etransitivity; [|symmetry; apply (concat_map_seq_S g k)]. rewrite Hres. f_equal. unfold g. do 2 f_equal.
      unfold byte_at. replace (Z.to_nat (0 + Z.of_nat k)) with k by lia.
      rewrite (nth_indep _ 0 (f O)) by (rewrite length_map, length_seq; lia).
      rewrite map_nth. rewrite seq_nth by lia. reflexivity.
    + split; reflexivity.
    + unfold for_upto, iterations. change (Z.to_nat 8) with 8%nat.
      rewrite Hrun, Hw, Hres. reflexivity.
  - set (g := fun k : nat =>
                charAt chars
                  (floor_times (Z.of_N (entropy w (drawn w + k)%nat) mod 2 ^ 53)
                               chars_length)).
    destruct (for_from_invariant
                (fun (i : Z) result =>
                   x <- Math_random ;;
                   ret (result ++ charAt chars (floor_times x chars_length)))
                8 0
                (fun k s w' =>
                   w' = advance k w /\ s = List.concat (map g (seq 0 k))))
      with (s := @nil N) (w := w) as (s & w' & Hrun & Hw & Hres).
    + intros k s w' Hk (Hw & Hres).
      eexists _, (advance 1 w'). split; [reflexivity|].
      split; [rewrite Hw, advance_advance; f_equal; lia|].
      etransitivity; [|symmetry; apply (concat_map_seq_S g k)]. rewrite Hres. f_equal. unfold g.
      rewrite Hw. reflexivity.
    + split; [|reflexivity].
      destruct w; unfold advance; simpl. f_equal. lia.
    + unfold for_upto, iterations. change (Z.to_nat 8) with 8%nat.
      rewrite Hrun, Hw, Hres. reflexivity.
Qed.

Lemma generateProxyConfig_closed (index : Z) (w : World) :
  validateCredentials (self w) = inr true ->
  generateProxyConfig index w
  = (inr (proxy_record (self w) index
            (session_id_at (secure w) (entropy w) (drawn w))),
     advance 8 w).
Proof.
  intros Hv.
  unfold generateProxyConfig, formatDate, bind, reading, now, ret, this.
  rewrite Hv. cbv beta iota. rewrite generateSessionId_closed. reflexivity.
Qed.

Lemma push_config_closed (i : Z) (acc : list Proxy.t) (w : World) :
  validateCredentials (self w) = inr true ->
  push_config i acc w
  = (inr (acc ++ [proxy_record (self w) i
                    (session_id_at (secure w) (entropy w) (drawn w))]),
     advance 8 w).
Proof.
  intros Hv. unfold push_config, try_catch. unfold bind at 1.
  rewrite (generateProxyConfig_closed i w Hv). reflexivity.
Qed.

(** The batch, record by record. *)
Lemma generateFullConfig_closed (w : World) :
  validateCredentials (self w) = inr true ->
  generateFullConfig w
  = (inr (full_record (self w)
            (map (fun i => proxy_record (self w) (Z.of_nat i) (token w i))
                 (seq 0 (batch_count (self w))))),
     advance (8 * batch_count (self w))
             (logged (generating_line (self w)) w)).
Proof.
  intros Hv.
  unfold generateFullConfig. unfold bind at 1. unfold reading. rewrite Hv.
  unfold bind at 1. unfold this at 1. cbv beta iota.
  unfold bind at 1. unfold console_log, emit. cbv beta iota.
  fold (generating_line (self w)). fold (logged (generating_line (self w)) w).
  set (w1 := logged (generating_line (self w)) w).
  destruct (for_from_invariant push_config (batch_count (self w)) 0
              (fun k acc w' =>
                 w' = advance (8 * k) w1
                 /\ acc = map (fun i => proxy_record (self w) (Z.of_nat i)
                                          (token w i))
                              (seq 0 k)))
    with (s := @nil Proxy.t) (w := w1) as (data & w2 & Hrun & Hw & Hdata).
  - intros k acc w' Hk (Hw & Hacc).
    assert (Hs : self w' = self w) by (rewrite Hw; reflexivity).
    eexists _, _. split.
    + apply push_config_closed. rewrite Hs. exact Hv.
    + split.
      * rewrite Hw, advance_advance. f_equal. lia.
      * rewrite seq_S, map_app, Hacc, Hs. cbn [map Nat.add]. do 3 f_equal.
        rewrite Hw. unfold token.
        cbn [secure entropy drawn advance w1 logged]. reflexivity.
  - split; [|reflexivity].
    destruct w; unfold advance, w1, logged; simpl. f_equal. lia.
  - unfold for_upto. fold (batch_count (self w)).
    unfold bind at 1. rewrite Hrun.
    unfold bind, this, ret. rewrite Hw, Hdata. reflexivity.
Qed.

Lemma validateCredentials_cases_result (g : Generator) :
  validateCredentials g = inr true
  \/ validateCredentials g = inl (Error msg_required)
  \/ validateCredentials g = inl (Error msg_username_short)
  \/ validateCredentials g = inl (Error msg_password_short).
Proof.
  unfold validateCredentials.
  destruct (_ || _); [tauto|].
  destruct (lt_opt _ 3); [tauto|].
  destruct (lt_opt _ 6); tauto.
Qed.

Lemma generateFullConfig_invalid (w : World) (e : exn) :
  validateCredentials (self w) = inl e ->
  generateFullConfig w = (inl e, w).
Proof.
  intros Hv. unfold generateFullConfig. unfold bind at 1. unfold reading.
  rewrite Hv. reflexivity.
Qed.

Lemma nth_error_map_seq {A} (f : nat -> A) (n i : nat) :
  (i < n)%nat -> nth_error (map f (seq 0 n)) i = Some (f i).
Proof.
  intros Hi. rewrite nth_error_map.
  rewrite (nth_error_nth' (seq 0 n) O) by (rewrite length_seq; exact Hi).
  rewrite seq_nth by exact Hi. reflexivity.
Qed.

(** ** The batch, token by token *)

(** X1. With valid credentials, [crypto.getRandomValues] at hand, and a
    count, a username and a region that are safe integers where they are
    numbers, the record at position [i] of a batch has in its username the
    identifier made from the 8 bytes of the random source at positions
    [drawn + 8 i] to [drawn + 8 i + 7]: every record takes 8 fresh
    values, in the order of the indices. *)
Theorem batch_tokens_in_order (w : World) :
  validateCredentials (self w) = inr true ->
  secure w = true ->
  exact_number (Config.proxyCount (config (self w))) ->
  exact_number (Credentials.username (credentials (self w))) ->
  exact_number (Config.region (config (self w))) ->
  exists f w',
    generateFullConfig w = (inr f, w')
    /\ List.length (Full.data f) = batch_count (self w)
    /\ forall i, (i < batch_count (self w))%nat ->
         exists r,
           nth_error (Full.data f) i = Some r
           /\ Proxy.username r
              = ToString (Credentials.username (credentials (self w)))
                ++ lit "-region-"
                ++ ToString (Config.region (config (self w)))
                ++ lit "-sessid-"
                ++ session_id_at true (entropy w) (drawn w + 8 * i)
                ++ lit "-sessTime-120".
Proof.
  intros Hv Hs _ _ _.
  eexists _, _. split; [apply generateFullConfig_closed, Hv|].
  cbn [Full.data full_record]. split.
  - rewrite length_map, length_seq. reflexivity.
  - intros i Hi. eexists. split; [apply nth_error_map_seq, Hi|].
    unfold token. rewrite Hs. reflexivity.
Qed.

Lemma batch_tokens_in_order_witness :
  exists f w',
    generateFullConfig
      (example_world (Options.mk None None None (Some (Num (Int 3))))
                     (lit "alice") (lit "secret1"))
    = (inr f, w')
    /\ List.length (Full.data f) = 3%nat
    /\ exists r,
         nth_error (Full.data f) 2 = Some r
         /\ Proxy.username r
            = lit "alice-region-US-sessid-x8JkVoZA-sessTime-120".
Proof.
  assert (Hn : exact_number
                 (Config.proxyCount
                    (config
                       (self
                          (example_world
                             (Options.mk None None None (Some (Num (Int 3))))
                             (lit "alice") (lit "secret1"))))))
    by (cbn; lia).
  destruct (batch_tokens_in_order
              (example_world (Options.mk None None None (Some (Num (Int 3))))
                             (lit "alice") (lit "secret1"))
              eq_refl eq_refl Hn I I) as (f & w' & Hrun & Hlen & Hall).
  exists f, w'. split; [exact Hrun|]. split; [exact Hlen|].
  apply (Hall 2%nat). vm_compute. lia.
Defined.

(** X2. The identifier that [generateSessionId] returns is a function of
    the next 8 values of the random source and of which source there is,
    and of nothing else: two worlds that agree on these give the same
    identifier, whatever their generators, clocks and consoles are. *)
Theorem generateSessionId_local (w1 w2 : World) :
  secure w1 = secure w2 ->
  (forall k, (k < 8)%nat ->
     entropy w1 (drawn w1 + k)%nat = entropy w2 (drawn w2 + k)%nat) ->
  fst (generateSessionId w1) = fst (generateSessionId w2).
Proof.
  intros Hs He. rewrite !generateSessionId_closed. cbn [fst]. f_equal.
  unfold session_id_at. rewrite Hs. f_equal.
  apply map_ext_in. intros k Hk. apply in_seq in Hk.
  rewrite (He k) by lia. reflexivity.
Qed.

Lemma generateSessionId_local_witness :
  fst (generateSessionId
         (world_of fresh true (fun n => N.of_nat (37 * n + 5))))
  = fst (generateSessionId
           (mkWorld
              (with_credentials (Str (lit "bob")) (Str (lit "hunter2")) fresh)
              true
              (fun n => if (n <? 10)%nat then 0%N else N.of_nat (37 * n - 365))
              10 (mkDate 1999 11 31 23 59) [Log (lit "x")])).
Proof.
  apply generateSessionId_local; [reflexivity|].
  intros k Hk. cbn [entropy drawn world_of].
  destruct (Nat.ltb_spec (10 + k) 10); [lia|]. f_equal. lia.
Defined.

Lemma username_injective (g : Generator) (i j : Z) (s t : jstring) :
  Proxy.username (proxy_record g i s) = Proxy.username (proxy_record g j t)
  <-> s = t.
Proof.
  unfold proxy_record; cbn [Proxy.username]. split.
  - intros H. rewrite !app_assoc in H.
    apply app_inv_tail in H. apply app_inv_head in H. exact H.
  - intros ->. reflexivity.
Qed.

Lemma NoDup_map_injective {A B} (f : A -> B) (l : list A) :
  (forall x y, f x = f y -> x = y) -> NoDup l -> NoDup (map f l).
Proof.
  intros Hf. induction 1 as [|x l Hx _ IH]; cbn [map]; constructor.
  - intros Hin. apply in_map_iff in Hin. destruct Hin as (y & Hy & Hin).
    apply Hf in Hy. subst y. contradiction.
  - exact IH.
Qed.

(** X3. With [crypto.getRandomValues] at hand and a count that is a
    safe integer when it is a number, the usernames of a batch are
    pairwise distinct exactly when the session identifiers drawn for the
    records are: nothing but the identifier tells two usernames of one
    batch apart, and the generator does not check for a repeated
    identifier. *)
Theorem batch_usernames_distinct (w : World) :
  validateCredentials (self w) = inr true ->
  secure w = true ->
  exact_number (Config.proxyCount (config (self w))) ->
  exists f w',
    generateFullConfig w = (inr f, w')
    /\ (NoDup (map Proxy.username (Full.data f)) <->
        NoDup (map (fun i => session_id_at true (entropy w)
                                           (drawn w + 8 * i))
                   (seq 0 (batch_count (self w))))).
Proof.
  intros Hv Hs _.
  eexists _, _. split; [apply generateFullConfig_closed, Hv|].
  cbn [Full.data full_record]. rewrite map_map.
  set (pre := ToString (Credentials.username (credentials (self w)))
              ++ lit "-region-"
              ++ ToString (Config.region (config (self w)))
              ++ lit "-sessid-").
  set (tok := fun i => session_id_at true (entropy w) (drawn w + 8 * i)).
  assert (E : map (fun i => Proxy.username
                              (proxy_record (self w) (Z.of_nat i) (token w i)))
                  (seq 0 (batch_count (self w)))
              = map (fun t => pre ++ t ++ lit "-sessTime-120")
                    (map tok (seq 0 (batch_count (self w))))).
  { rewrite map_map. apply map_ext. intros i.
    unfold proxy_record, pre, tok, token; cbn [Proxy.username].
    rewrite Hs, <- !app_assoc. reflexivity. }
  rewrite E. split.
  - apply NoDup_map_inv.
  - apply NoDup_map_injective. intros s t H.
    apply app_inv_head in H. apply app_inv_tail in H. exact H.
Qed.

Lemma batch_usernames_distinct_witness :
  exists f w',
    generateFullConfig
      (example_world (Options.mk None None None (Some (Num (Int 3))))
                     (lit "alice") (lit "secret1"))
    = (inr f, w')
    /\ NoDup (map Proxy.username (Full.data f)).
Proof.
  assert (Hn : exact_number
                 (Config.proxyCount
                    (config
                       (self
                          (example_world
                             (Options.mk None None None (Some (Num (Int 3))))
                             (lit "alice") (lit "secret1"))))))
    by (cbn; lia).
  destruct (batch_usernames_distinct
              (example_world (Options.mk None None None (Some (Num (Int 3))))
                             (lit "alice") (lit "secret1"))
              eq_refl eq_refl Hn) as (f & w' & Hrun & Hiff).
  exists f, w'. split; [exact Hrun|]. apply Hiff.
  vm_compute.
  repeat (constructor;
          [cbn [In]; intros H;
           repeat (destruct H as [H | H]; [discriminate H|]); exact H|]).
  constructor.
Defined.

(** ** What a batch changes, and what its records share *)

(** X4. With valid credentials [generateFullConfig] leaves the generator,
    the clock and the random source as they are, logs exactly one line,
    that names the clamped count, and takes 8 values from the random
    source for each record of the batch. *)
Theorem generateFullConfig_effects (w : World) :
  validateCredentials (self w) = inr true ->
  exists f w',
    generateFullConfig w = (inr f, w')
    /\ self w' = self w
    /\ secure w' = secure w /\ entropy w' = entropy w /\ clock w' = clock w
    /\ console w'
       = console w
         ++ [Log (lit "Generating "
                  ++ Z_to_string (Z.of_nat (List.length (Full.data f)))
                  ++ lit " proxy configurations")]
    /\ drawn w' = (drawn w + 8 * List.length (Full.data f))%nat.
Proof.
  intros Hv. eexists _, _. split; [apply generateFullConfig_closed, Hv|].
  cbn [Full.data full_record self secure entropy clock console drawn
       advance logged].
  rewrite length_map, length_seq.
  repeat split.
  unfold generating_line, batch_count. do 3 f_equal.
  pose proof (clamp_count_cases (Config.proxyCount (config (self w)))) as Hc.
  unfold clamp_count in *.
  destruct (parseInt (Config.proxyCount (config (self w)))) as [|k];
    [reflexivity|].
  unfold or_number in *. cbn [ToBoolean] in *.
  destruct (k =? 0) eqn:E; cbn [negb Math_min Math_max Number_toString iterations].
  - reflexivity.
  - rewrite Z2Nat.id by lia. reflexivity.
Qed.

Lemma generateFullConfig_effects_witness :
  exists f w',
    generateFullConfig
      (example_world (Options.mk None None None (Some (Str (lit "70"))))
                     (lit "alice") (lit "secret1"))
    = (inr f, w')
    /\ console w' = [Log (lit "Generating 50 proxy configurations")]
    /\ drawn w' = 400%nat.
Proof.
  destruct (generateFullConfig_effects
              (example_world (Options.mk None None None (Some (Str (lit "70"))))
                             (lit "alice") (lit "secret1"))
              eq_refl) as (f & w' & Hrun & _ & _ & _ & _ & Hc & Hd).
  exists f, w'. split; [exact Hrun|].
  assert (Hl : List.length (Full.data f) = 50%nat).
  { rewrite generateFullConfig_closed in Hrun by reflexivity.
    injection Hrun as <- _. reflexivity. }
  rewrite Hc, Hd, Hl. split; reflexivity.
Defined.

(** X5. With valid credentials, an endpoint that is a safe integer when
    it is a number and a port that parses as a safe integer or not at
    all, every record of a batch carries the template and the password as
    they are stored: [hostname] is the endpoint, [port] is the port
    parsed as a decimal integer, [password] is the stored password,
    verbatim; the type is [socks5], the flags are set and the
    placeholders are empty; [mode] is endpoint, colon, port. *)
Theorem batch_records_share_template (w : World) :
  validateCredentials (self w) = inr true ->
  exact_number (Config.endpoint (config (self w))) ->
  exact_port (Config.port (config (self w))) ->
  exists f w',
    generateFullConfig w = (inr f, w')
    /\ Full.mode f
       = ToString (Config.endpoint (config (self w))) ++ lit ":"
         ++ ToString (Config.port (config (self w)))
    /\ forall r, In r (Full.data f) ->
         Proxy.hostname r = Config.endpoint (config (self w))
         /\ Proxy.port r = parseInt (Config.port (config (self w)))
         /\ Proxy.password r = Credentials.password (credentials (self w))
         /\ Proxy.type r = lit "socks5"
         /\ Proxy.active r = true /\ Proxy.proxyDNS r = true
         /\ Proxy.cc r = [] /\ Proxy.city r = []
         /\ Proxy.pac r = [] /\ Proxy.pacString r = []
         /\ Proxy.include r = [] /\ Proxy.exclude r = []
         /\ Proxy.tabProxy r = [].
Proof.
  intros Hv _ _.
  eexists _, _. split; [apply generateFullConfig_closed, Hv|].
  split; [reflexivity|].
  cbn [Full.data full_record]. intros r Hr.
  apply in_map_iff in Hr. destruct Hr as (i & <- & _).
  repeat split.
Qed.

Lemma batch_records_share_template_witness :
  exists f w',
    generateFullConfig
      (example_world
         (Options.mk None (Some (Str (lit " 8080px"))) None None)
         (lit "alice") (lit " secret1 "))
    = (inr f, w')
    /\ Full.mode f = lit "na.proxys5.net: 8080px"
    /\ forall r, In r (Full.data f) ->
         Proxy.port r = Int 8080
         /\ Proxy.password r = Str (lit " secret1 ").
Proof.
  assert (Hport : exact_port
                    (Config.port
                       (config
                          (self
                             (example_world
                                (Options.mk None (Some (Str (lit " 8080px")))
                                            None None)
                                (lit "alice") (lit " secret1 "))))))
    by (right; vm_compute; split; reflexivity).
  destruct (batch_records_share_template
              (example_world
                 (Options.mk None (Some (Str (lit " 8080px"))) None None)
                 (lit "alice") (lit " secret1 "))
              eq_refl I Hport) as (f & w' & Hrun & Hm & Hall).
  exists f, w'. split; [exact Hrun|]. split; [exact Hm|].
  intros r Hr. destruct (Hall r Hr) as (_ & Hp & Hpw & _).
  split; [exact Hp | exact Hpw].
Defined.

(** X6. Whatever [proxyCount] holds, the clamped count is an integer
    from 1 to 50, so a batch never is empty and never has more than 50
    records. *)
Theorem batch_size_bounds (w : World) :
  validateCredentials (self w) = inr true ->
  (forall v, exists k, clamp_count v = Int k /\ 1 <= k <= 50)
  /\ exists f w',
       generateFullConfig w = (inr f, w')
       /\ (1 <= List.length (Full.data f) <= 50)%nat.
Proof.
  intros Hv.
  assert (Hb : forall v, exists k, clamp_count v = Int k /\ 1 <= k <= 50).
  { intros v. pose proof (clamp_count_cases v) as Hc.
    destruct (parseInt v) as [|k].
    - exists 10. split; [assumption | lia].
    - destruct Hc as (H1 & H2 & H3 & H4).
      destruct (Z_lt_le_dec k 0); [exists 1; split; [auto | lia]|].
      destruct (Z.eq_dec k 0); [exists 10; split; [auto | lia]|].
      destruct (Z_le_gt_dec k 50); [exists k; split; [apply H1 | ]; lia|].
      exists 50. split; [apply H2 |]; lia. }
  split; [exact Hb|].
  eexists _, _. split; [apply generateFullConfig_closed, Hv|].
  cbn [Full.data full_record]. rewrite length_map, length_seq.
  unfold batch_count.
  destruct (Hb (Config.proxyCount (config (self w)))) as (k & -> & Hk).
  unfold iterations. lia.
Qed.

Lemma batch_size_bounds_witness :
  exists f w',
    generateFullConfig
      (example_world (Options.mk None None None (Some (Str (lit "-3"))))
                     (lit "alice") (lit "secret1"))
    = (inr f, w')
    /\ (1 <= List.length (Full.data f) <= 50)%nat.
Proof.
  apply (batch_size_bounds
           (example_world (Options.mk None None None (Some (Str (lit "-3"))))
                          (lit "alice") (lit "secret1"))
           eq_refl).
Defined.

(** ** Failures *)

(** X7. [generateProxyConfig] checks the credentials before anything
    else: with invalid credentials it throws the error of
    [validateCredentials] and the world is untouched (no value is taken
    from the random source), and it returns a record only when the
    credentials are valid. *)
Theorem generateProxyConfig_guarded (index : Z) (w : World) :
  match validateCredentials (self w) with
  | inl e => generateProxyConfig index w = (inl e, w)
  | inr _ =>
      exists r, generateProxyConfig index w = (inr r, advance 8 w)
  end
  /\ forall r w', generateProxyConfig index w = (inr r, w') ->
       validateCredentials (self w) = inr true.
Proof.
  destruct (validateCredentials (self w)) as [e | b] eqn:Hv.
  - split; [apply generateProxyConfig_invalid, Hv|].
    intros r w' H. rewrite (generateProxyConfig_invalid _ _ _ Hv) in H.
    discriminate.
  - pose proof (validateCredentials_true _ _ Hv) as ->.
    split; [|reflexivity].
    eexists. apply generateProxyConfig_closed, Hv.
Qed.

(** X8. When [generateFullConfig] throws, what it throws is the error of
    [validateCredentials], one of its three messages, and nothing was
    logged or drawn before: the wrapped error of a failing record never
    occurs, and no partial batch is built. *)
Theorem generateFullConfig_throws (w w' : World) (e : exn) :
  generateFullConfig w = (inl e, w') ->
  validateCredentials (self w) = inl e
  /\ w' = w
  /\ (e = Error msg_required \/ e = Error msg_username_short
      \/ e = Error msg_password_short).
Proof.
  intros H.
  destruct (validateCredentials_cases_result (self w)) as [Hv | Hv].
  - rewrite (generateFullConfig_closed w Hv) in H. discriminate.
  - assert (He : exists e0, validateCredentials (self w) = inl e0
                            /\ (e0 = Error msg_required
                                \/ e0 = Error msg_username_short
                                \/ e0 = Error msg_password_short)).
    { destruct Hv as [Hv | [Hv | Hv]]; eexists; (split; [exact Hv|]); tauto. }
    destruct He as (e0 & Hv0 & Hm).
    rewrite (generateFullConfig_invalid w e0 Hv0) in H.
    injection H as <- <-. tauto.
Qed.

Lemma generateFullConfig_throws_witness :
  validateCredentials
    (with_credentials (Str (lit "al")) (Str (lit "pw")) fresh)
  = inl (Error msg_username_short).
Proof.
  apply (generateFullConfig_throws
           (world_of (with_credentials (Str (lit "al")) (Str (lit "pw")) fresh)
                     true (fun _ => 0%N))
           (world_of (with_credentials (Str (lit "al")) (Str (lit "pw")) fresh)
                     true (fun _ => 0%N))
           (Error msg_username_short)).
  reflexivity.
Defined.

(** X9. With invalid credentials [getConfigAsJson] logs the error of
    [validateCredentials] on the console and throws a new error whose
    message is [Failed to generate configuration: ] followed by the
    message of that error; the generator is unchanged and nothing is
    drawn. *)
Theorem getConfigAsJson_invalid (w : World) (e : exn) :
  validateCredentials (self w) = inl e ->
  getConfigAsJson w
  = (inl (Error (lit "Failed to generate configuration: " ++ message e)),
     logged (LogError (lit "Error generating config JSON:") e) w).
Proof.
  intros Hv. unfold getConfigAsJson, try_catch. unfold bind at 1.
  rewrite (generateFullConfig_invalid w e Hv). reflexivity.
Qed.

Lemma getConfigAsJson_invalid_witness :
  fst (getConfigAsJson (world_of fresh true (fun _ => 0%N)))
  = inl (Error (lit "Failed to generate configuration: Username and password are required")).
Proof.
  rewrite (getConfigAsJson_invalid (world_of fresh true (fun _ => 0%N))
             (Error msg_required) eq_refl).
  reflexivity.
Defined.

(** ** Trimming *)

Lemma trimStart_head (s : jstring) :
  forall c r, trimStart s = c :: r -> is_white c = false.
Proof.
  induction s as [|a s IH]; intros c r H; cbn [trimStart] in H.
  - discriminate.
  - destruct (is_white a) eqn:E.
    + exact (IH c r H).
    + injection H as <- _. exact E.
Qed.

Lemma trimStart_fixed (s : jstring) :
  (forall c r, s = c :: r -> is_white c = false) -> trimStart s = s.
Proof.
  intros H. destruct s as [|c r]; [reflexivity|].
  cbn [trimStart]. rewrite (H c r eq_refl). reflexivity.
Qed.

Lemma trimStart_keeps_last (l : jstring) (c : N) :
  is_white c = false -> exists l', trimStart (l ++ [c]) = l' ++ [c].
Proof.
  intros Hc. induction l as [|a l IH]; cbn [app trimStart].
  - rewrite Hc. exists []. reflexivity.
  - destruct (is_white a).
    + exact IH.
    + exists (a :: l). reflexivity.
Qed.

Lemma trimEnd_last (s : jstring) :
  forall c r, trimEnd s = r ++ [c] -> is_white c = false.
Proof.
  intros c r H. unfold trimEnd in H.
  apply (f_equal (@rev N)) in H. rewrite rev_involutive, rev_app_distr in H.
  cbn [rev app] in H. exact (trimStart_head _ _ _ H).
Qed.

Lemma trimEnd_head (s : jstring) :
  (forall c r, s = c :: r -> is_white c = false) ->
  forall c r, trimEnd s = c :: r -> is_white c = false.
Proof.
  intros Hs c r H. destruct s as [|a s]; [discriminate H|].
  pose proof (Hs a s eq_refl) as Ha.
  unfold trimEnd in H. cbn [rev] in H.
  destruct (trimStart_keeps_last (rev s) a Ha) as (l' & E).
  rewrite E, rev_app_distr in H. cbn [rev app] in H.
  injection H as <- _. exact Ha.
Qed.

Lemma trim_trimmed (s : jstring) : trimmed (trim s).
Proof.
  split.
  - apply trimEnd_head. apply trimStart_head.
  - apply trimEnd_last.
Qed.

Lemma trimEnd_fixed (s : jstring) :
  (forall c r, s = r ++ [c] -> is_white c = false) -> trimEnd s = s.
Proof.
  intros H. unfold trimEnd. rewrite trimStart_fixed.
  - apply rev_involutive.
  - intros c r E. apply (H c (rev r)).
    apply (f_equal (@rev N)) in E. rewrite rev_involutive in E.
    rewrite E. reflexivity.
Qed.

Lemma trim_fixed (s : jstring) : trimmed s -> trim s = s.
Proof.
  intros [H1 H2]. unfold trim.
  rewrite (trimStart_fixed s H1). apply trimEnd_fixed, H2.
Qed.

Lemma trim_idempotent (s : jstring) : trim (trim s) = trim s.
Proof. apply trim_fixed, trim_trimmed. Qed.

(** ** Setting and clearing the credentials *)

Lemma truthy_string (s : jstring) : ToBoolean (Str s) = true <-> s <> [].
Proof. destruct s; simpl; split; congruence. Qed.

Lemma updateCredentials_strings (u p : jstring) (w : World) :
  u <> [] -> p <> [] ->
  updateCredentials (Str u) (Str p) w
  = (inr true,
     logged (Log (lit "Credentials updated successfully"))
       (put_self
          (set_credentials (Credentials.mk (Str (trim u)) (Str (trim p)))
                           (self w)) w)).
Proof.
  intros Hu Hp. unfold updateCredentials.
  destruct u as [|cu u']; [congruence|].
  destruct p as [|cp p']; [congruence|].
  reflexivity.
Qed.

(** X10. [updateCredentials] throws [Both username and password are
    required] when an argument is empty or absent, and a [TypeError] when
    both are non-empty but one of them is not a string (it has no
    [trim]); in both cases the stored credentials, and the whole world,
    are left as they were.  Two non-empty strings are accepted. *)
Theorem updateCredentials_failures (username password : prim) (w : World) :
  (ToBoolean username = false \/ ToBoolean password = false ->
   updateCredentials username password w
   = (inl (Error (lit "Both username and password are required")), w))
  /\ (ToBoolean username = true -> ToBoolean password = true ->
      (forall s, username <> Str s) \/ (forall s, password <> Str s) ->
      exists m, updateCredentials username password w = (inl (TypeError m), w))
  /\ (forall u p, username = Str u -> password = Str p ->
      u <> [] -> p <> [] ->
      exists w', updateCredentials username password w = (inr true, w')).
Proof.
  split; [|split].
  - intros H. unfold updateCredentials.
    destruct H as [H | H]; rewrite H; [|rewrite orb_true_r]; reflexivity.
  - intros Hu Hp H. unfold updateCredentials. rewrite Hu, Hp.
    cbn [negb orb]. unfold bind at 1.
    destruct username as [| |b|n|s].
    + discriminate.
    + discriminate.
    + eexists; reflexivity.
    + eexists; reflexivity.
    + destruct H as [H | H]; [exfalso; exact (H s eq_refl)|].
      cbn [call_trim ret]. unfold bind at 1.
      destruct password as [| |b|n|t];
        try discriminate; try (eexists; reflexivity).
      exfalso; exact (H t eq_refl).
  - intros u p -> -> Hu Hp. eexists. apply updateCredentials_strings; assumption.
Qed.

(** X11. [updateCredentials] stores its arguments trimmed: after it has
    accepted two strings, the stored username and password are the
    arguments without their leading and trailing white space, so neither
    starts or ends with white space; the template and the palettes are
    unchanged, one line is logged, and storing the stored values once
    more changes no credential. *)
Theorem updateCredentials_trims (u p : jstring) (w : World) :
  u <> [] -> p <> [] ->
  exists w',
    updateCredentials (Str u) (Str p) w = (inr true, w')
    /\ credentials (self w') = Credentials.mk (Str (trim u)) (Str (trim p))
    /\ trimmed (trim u) /\ trimmed (trim p)
    /\ config (self w') = config (self w)
    /\ colors (self w') = colors (self w) /\ icons (self w') = icons (self w)
    /\ console w'
       = console w ++ [Log (lit "Credentials updated successfully")]
    /\ (trim u <> [] -> trim p <> [] ->
        exists w'',
          updateCredentials (Str (trim u)) (Str (trim p)) w' = (inr true, w'')
          /\ self w'' = self w').
Proof.
  intros Hu Hp. eexists. split; [apply updateCredentials_strings; assumption|].
  cbn [self logged put_self credentials set_credentials config colors icons
       console].
  repeat split; try apply trim_trimmed.
  intros Hu' Hp'. eexists.
  split; [apply updateCredentials_strings; assumption|].
  cbn [self logged put_self credentials set_credentials config colors icons].
  rewrite !trim_idempotent. reflexivity.
Qed.

Lemma updateCredentials_trims_witness :
  exists w',
    updateCredentials (Str (lit "  alice ")) (Str (9%N :: lit "secret1"))
                      (world_of fresh true (fun _ => 0%N))
    = (inr true, w')
    /\ credentials (self w')
       = Credentials.mk (Str (lit "alice")) (Str (lit "secret1")).
Proof.
  destruct (updateCredentials_trims (lit "  alice ") (9%N :: lit "secret1")
              (world_of fresh true (fun _ => 0%N)))
    as (w' & Hrun & Hc & _); [discriminate | discriminate |].
  exists w'. split; [exact Hrun | exact Hc].
Defined.

(** X12. After [updateCredentials] has accepted two strings,
    [validateCredentials] passes exactly when the trimmed username has at
    least 3 and the trimmed password at least 6 characters, and
    [getConfigInfo] reports credentials exactly when neither is empty
    after trimming: the lengths that count are those of the trimmed
    strings, not of the arguments. *)
Theorem updateCredentials_then_validate (u p : jstring) (w : World) :
  u <> [] -> p <> [] ->
  exists w',
    updateCredentials (Str u) (Str p) w = (inr true, w')
    /\ (validateCredentials (self w') = inr true <->
        (3 <= List.length (trim u))%nat /\ (6 <= List.length (trim p))%nat)
    /\ (Info.hasCredentials (getConfigInfo (self w')) = true <->
        trim u <> [] /\ trim p <> []).
Proof.
  intros Hu Hp. eexists. split; [apply updateCredentials_strings; assumption|].
  cbn [self logged put_self].
  unfold validateCredentials, getConfigInfo.
  cbn [credentials set_credentials Credentials.username Credentials.password
       Info.hasCredentials length_of lt_opt].
  split.
  - destruct (trim u) as [|a tu]; [cbn; split; [discriminate | lia]|].
    destruct (trim p) as [|b tp]; [cbn; split; [discriminate | lia]|].
    cbn [ToBoolean negb orb].
    destruct (Z.of_nat (List.length (a :: tu)) <? 3) eqn:E3.
    + apply Z.ltb_lt in E3. split; [discriminate | lia].
    + apply Z.ltb_ge in E3.
      destruct (Z.of_nat (List.length (b :: tp)) <? 6) eqn:E6.
      * apply Z.ltb_lt in E6. split; [discriminate | lia].
      * apply Z.ltb_ge in E6. split; [lia | reflexivity].
  - rewrite andb_true_iff, !truthy_string. reflexivity.
Qed.

Lemma updateCredentials_then_validate_witness :
  exists w',
    updateCredentials (Str (lit " ab ")) (Str (lit "secret1"))
                      (world_of fresh true (fun _ => 0%N))
    = (inr true, w')
    /\ validateCredentials (self w') <> inr true
    /\ Info.hasCredentials (getConfigInfo (self w')) = true.
Proof.
  destruct (updateCredentials_then_validate (lit " ab ") (lit "secret1")
              (world_of fresh true (fun _ => 0%N)))
    as (w' & Hrun & Hv & Hh); [discriminate | discriminate |].
  exists w'. split; [exact Hrun|]. split.
  - intros H. apply Hv in H. destruct H as [H _].
    change (3 <= 2)%nat in H. lia.
  - apply Hh. split; discriminate.
Defined.

(** X13. [clearCredentials] always succeeds and resets both credentials
    to the empty string, whatever they were; the template and the
    palettes are kept, one line is logged, and afterwards
    [validateCredentials] misses a credential, [getConfigInfo] reports no
    credentials and [generateFullConfig] throws without building
    anything. *)
Theorem clearCredentials_resets (w : World) :
  exists w',
    clearCredentials w = (inr tt, w')
    /\ credentials (self w') = Credentials.mk (Str []) (Str [])
    /\ config (self w') = config (self w)
    /\ colors (self w') = colors (self w) /\ icons (self w') = icons (self w)
    /\ console w' = console w ++ [Log (lit "Credentials cleared from memory")]
    /\ drawn w' = drawn w
    /\ validateCredentials (self w') = inl (Error msg_required)
    /\ Info.hasCredentials (getConfigInfo (self w')) = false
    /\ generateFullConfig w' = (inl (Error msg_required), w').
Proof.
  eexists. split; [reflexivity|].
  repeat split.
Qed.

(** X14. A generator is constructed without credentials, whatever the
    options are, so that it generates nothing until credentials are set;
    its region never is ["USA"]; endpoint, port and count are those of
    the options where they are given and the defaults where they are not;
    and constructing again from the constructed template gives the same
    generator. *)
Theorem constructor_invariants (o : Options.t) :
  credentials (constructor o) = Credentials.mk (Str []) (Str [])
  /\ validateCredentials (constructor o) = inl (Error msg_required)
  /\ Info.hasCredentials (getConfigInfo (constructor o)) = false
  /\ Config.region (config (constructor o)) <> Str (lit "USA")
  /\ Config.endpoint (config (constructor o))
     = or_default (Options.endpoint o) (Str (lit "na.proxys5.net"))
  /\ Config.port (config (constructor o))
     = or_default (Options.port o) (Str (lit "6200"))
  /\ Config.proxyCount (config (constructor o))
     = or_default (Options.proxyCount o) (Num (Int 10))
  /\ colors (constructor o) = default_colors
  /\ icons (constructor o) = default_icons
  /\ constructor (options_of (config (constructor o))) = constructor o.
Proof.
  assert (Hr : Config.region (config (constructor o)) <> Str (lit "USA")).
  { unfold constructor.
    destruct (strict_eq_str (Config.region (Object_assign default_config o))
                            (lit "USA")) eqn:E; cbn [config Config.region].
    - discriminate.
    - intros H. rewrite H in E. discriminate. }
  split; [reflexivity|]. split; [reflexivity|]. split; [reflexivity|].
  split; [exact Hr|]. clear Hr.
  destruct o as [e p [r|] c]; unfold constructor, options_of, Object_assign;
    cbn [Options.endpoint Options.port Options.region Options.proxyCount
         or_default default_config Config.endpoint Config.port Config.region
         Config.proxyCount].
  - destruct (strict_eq_str r (lit "USA")) eqn:E;
      cbn [config colors icons Config.endpoint Config.port Config.region
           Config.proxyCount or_default];
      repeat (split; [reflexivity|]).
    + reflexivity.
    + rewrite E. reflexivity.
  - repeat (split; [reflexivity|]). reflexivity.
Qed.

(** ** Decimal renderings of one and two digits *)

Lemma digits_aux_acc (f : nat) :
  forall (n : N) (acc : jstring),
    digits_aux f n acc = digits_aux f n [] ++ acc.
Proof.
  induction f as [|f IH]; intros n acc; [reflexivity|].
  rewrite (digits_aux_S f n acc), (digits_aux_S f n []).
  destruct (n <? 10)%N; [reflexivity|].
  rewrite (IH _ (_ :: acc)), (IH _ [_]), <- app_assoc. reflexivity.
Qed.

Lemma pow2_half (f : nat) (n : N) :
  (10 <= n)%N -> (n < 2 ^ N.of_nat (S f))%N ->
  exists f0, f = S f0 /\ (n / 10 < 2 ^ N.of_nat (S f0))%N.
Proof.
  intros H10 Hn. destruct f as [|f0].
  - change (2 ^ N.of_nat 1)%N with 2%N in Hn. lia.
  - exists f0. split; [reflexivity|].
    apply N.Div0.div_lt_upper_bound.
    replace (N.of_nat (S (S f0))) with (N.succ (N.of_nat (S f0))) in Hn by lia.
    rewrite N.pow_succ_r' in Hn. lia.
Qed.

Lemma digits_aux_fuel (f : nat) :
  forall (f' : nat) (n : N),
    (n < 2 ^ N.of_nat (S f))%N -> (n < 2 ^ N.of_nat (S f'))%N ->
    digits_aux (S f) n [] = digits_aux (S f') n [].
Proof.
  induction f as [|f IH]; intros f' n Hn Hn';
    rewrite (digits_aux_S _ n []), (digits_aux_S f' n []);
    destruct (n <? 10)%N eqn:E; try reflexivity; apply N.ltb_ge in E.
  - change (2 ^ N.of_nat 1)%N with 2%N in Hn. lia.
  - destruct (pow2_half _ _ E Hn) as (f0 & Ef & H0).
    destruct (pow2_half _ _ E Hn') as (f0' & Ef' & H0').
    injection Ef as ->. subst f'.
    rewrite (digits_aux_acc (S f0)), (digits_aux_acc (S f0')).
    rewrite (IH f0' (n / 10)%N H0 H0'). reflexivity.
Qed.

Lemma log2_fuel (n : N) : (n < 2 ^ N.of_nat (S (N.to_nat (N.log2 n))))%N.
Proof.
  destruct n as [|p]; [reflexivity|].
  replace (N.of_nat (S (N.to_nat (N.log2 (N.pos p)))))
    with (N.succ (N.log2 (N.pos p))) by lia.
  apply N.log2_spec. lia.
Qed.

Lemma digits_small (n : N) : (n < 10)%N -> digits n = [(48 + n)%N].
Proof.
  intros Hn. unfold digits. rewrite digits_aux_S.
  replace (n <? 10)%N with true by (symmetry; apply N.ltb_lt; assumption).
  rewrite N.mod_small by assumption. reflexivity.
Qed.

Lemma digits_step (n : N) :
  (10 <= n)%N -> digits n = digits (n / 10) ++ [(48 + n mod 10)%N].
Proof.
  intros Hn. unfold digits at 1. rewrite digits_aux_S.
  replace (n <? 10)%N with false by (symmetry; apply N.ltb_ge; assumption).
  destruct (pow2_half _ _ Hn (log2_fuel n)) as (f0 & Ef & H0).
  rewrite Ef, digits_aux_acc. f_equal.
  unfold digits. apply digits_aux_fuel; [assumption | apply log2_fuel].
Qed.

Lemma digits_last (n : N) :
  exists init, digits n = init ++ [(48 + n mod 10)%N].
Proof.
  destruct (N.lt_ge_cases n 10) as [H | H].
  - exists []. rewrite digits_small, N.mod_small by assumption. reflexivity.
  - eexists. apply digits_step, H.
Qed.

Lemma Z_to_string_nonneg (z : Z) :
  0 <= z -> Z_to_string z = digits (Z.to_N z).
Proof.
  intros H. unfold Z_to_string.
  destruct (z <? 0) eqn:E; [apply Z.ltb_lt in E; lia | reflexivity].
Qed.

Lemma padStart2_two_digits (z : Z) :
  0 <= z < 100 -> padStart2 (Z_to_string z) = two_digits z.
Proof.
  intros Hz. rewrite Z_to_string_nonneg by lia. unfold two_digits.
  set (n := Z.to_N z). assert (Hn : (n < 100)%N) by (unfold n; lia).
  destruct (N.lt_ge_cases n 10) as [H | H].
  - rewrite digits_small by assumption. cbn [padStart2].
    rewrite (N.div_small n 10) by assumption.
    rewrite (N.mod_small n 10) by assumption. reflexivity.
  - rewrite digits_step by assumption.
    assert (Hq : (n / 10 < 10)%N) by (apply N.Div0.div_lt_upper_bound; lia).
    rewrite digits_small by assumption.
    rewrite (N.mod_small (n / 10) 10) by assumption. reflexivity.
Qed.

Lemma slice_last_two (init : jstring) (a b : N) :
  slice_last 2 (init ++ [a; b]) = [a; b].
Proof.
  unfold slice_last. rewrite length_app. cbn [List.length].
  replace (List.length init + 2 - 2)%nat with (List.length init) by lia.
  rewrite skipn_app, skipn_all, Nat.sub_diag. reflexivity.
Qed.

Lemma slice_last_two_digits (z : Z) :
  10 <= z -> slice_last 2 (Z_to_string z) = two_digits z.
Proof.
  intros Hz. rewrite Z_to_string_nonneg by lia. unfold two_digits.
  set (n := Z.to_N z). assert (Hn : (10 <= n)%N) by (unfold n; lia).
  rewrite digits_step by assumption.
  destruct (digits_last (n / 10)) as (init & ->).
  rewrite <- app_assoc. apply slice_last_two.
Qed.

(** ** The date of the file name *)

(** X15. For a date from the year 10 on, [formatDate] returns 11
    characters, [YYMMDD-HHMM]: the last two digits of the year, then the
    month counted from 1, the day, the hours and the minutes, each as
    two digits with a leading zero where needed.  It reads the clock and
    changes nothing. *)
Theorem formatDate_shape (w : World) :
  10 <= getFullYear (clock w) ->
  0 <= getMonth (clock w) <= 11 ->
  1 <= getDate (clock w) <= 31 ->
  0 <= getHours (clock w) <= 23 ->
  0 <= getMinutes (clock w) <= 59 ->
  formatDate w
  = (inr (two_digits (getFullYear (clock w))
          ++ two_digits (getMonth (clock w) + 1)
          ++ two_digits (getDate (clock w))
          ++ [45%N]
          ++ two_digits (getHours (clock w))
          ++ two_digits (getMinutes (clock w))),
     w).
Proof.
  intros Hy Hm Hd Hh Hn. unfold formatDate, bind, now, ret.
  rewrite slice_last_two_digits by assumption.
  rewrite !padStart2_two_digits by lia.
  reflexivity.
Qed.

Lemma formatDate_shape_witness :
  fst (formatDate (world_of fresh true (fun _ => 0%N)))
  = inr (lit "250115-0905").
Proof.
  rewrite (formatDate_shape (world_of fresh true (fun _ => 0%N)));
    cbn [clock world_of getFullYear getMonth getDate getHours getMinutes];
    try lia.
  reflexivity.
Defined.

(** ** Parsing any serialized value *)

Lemma is_undefined_true (v : JSON.value) :
  is_undefined v = true -> v = JSON.Prim Undefined.
Proof.
  destruct v as [[| | | |]| |]; simpl; congruence.
Qed.

Lemma serialize_normalize (v : JSON.value) :
  forall indent,
    JSON.serialize indent (normalize v) = JSON.serialize indent v.
Proof.
  induction v as [p | l IH | l IH] using value_induction; intros indent.
  - destruct p as [| |b|[|z]|s]; reflexivity.
  - cbn [normalize]. rewrite !serialize_Arr. do 2 f_equal.
    rewrite map_map. apply map_ext_in. intros x Hx.
    pose proof (proj1 (Forall_forall _ _) IH x Hx) as IHx.
    destruct (is_undefined x) eqn:E.
    + apply is_undefined_true in E. subst x. reflexivity.
    + unfold text_of. rewrite IHx. reflexivity.
  - cbn [normalize JSON.serialize]. do 2 f_equal.
    induction l as [|[k x] r IHr]; [reflexivity|].
    inversion IH as [|? ? IHx IHrest]; subst. cbn [snd] in IHx.
    cbn [flat_map fst snd]. rewrite flat_map_app, (IHr IHrest). f_equal.
    destruct (is_undefined x) eqn:E.
    + apply is_undefined_true in E. subst x. reflexivity.
    + cbn [flat_map fst snd app]. rewrite IHx, app_nil_r. reflexivity.
Qed.

Lemma kept_keys (l : list (jstring * JSON.value)) (k : jstring) :
  In k (map fst
          (flat_map (fun kx =>
                       if is_undefined (snd kx) then []
                       else [(fst kx, normalize (snd kx))]) l)) ->
  In k (map fst l).
Proof.
  induction l as [|[k' x] r IH]; [trivial|].
  cbn [flat_map map fst snd]. rewrite map_app, in_app_iff.
  intros [H | H].
  - destruct (is_undefined x); [contradiction|].
    cbn [map fst In] in *. tauto.
  - right. exact (IH H).
Qed.

Lemma normalize_representable (v : JSON.value) :
  distinct_keys v = true -> is_undefined v = false ->
  JSON.representable (normalize v) = true.
Proof.
  induction v as [p | l IH | l IH] using value_induction; intros Hd Hu.
  - destruct p as [| |b|[|z]|s]; try reflexivity. discriminate.
  - cbn [normalize JSON.representable]. cbn [distinct_keys] in Hd.
    apply forallb_forall. intros y Hy.
    apply in_map_iff in Hy. destruct Hy as (x & <- & Hx).
    destruct (is_undefined x) eqn:E; [reflexivity|].
    apply (proj1 (Forall_forall _ _) IH x Hx); [|assumption].
    exact (proj1 (forallb_forall _ _) Hd x Hx).
  - cbn [normalize JSON.representable]. cbn [distinct_keys] in Hd.
    apply andb_true_iff in Hd. destruct Hd as [Hk Hd].
    apply distinct_NoDup in Hk.
    apply andb_true_iff. split.
    + apply distinct_NoDup. clear IH Hd Hu.
      induction l as [|[k x] r IHr]; [constructor|].
      cbn [map fst] in Hk. inversion Hk as [|? ? Hn Hr]; subst.
      cbn [flat_map fst snd]. rewrite map_app.
      destruct (is_undefined x); cbn [map fst app].
      * exact (IHr Hr).
      * constructor; [|exact (IHr Hr)].
        intros Hin. apply Hn. exact (kept_keys r k Hin).
    + apply forallb_forall. intros ky Hy.
      apply in_flat_map in Hy. destruct Hy as ([k x] & Hx & Hy).
      cbn [fst snd] in Hy.
      destruct (is_undefined x) eqn:E; [contradiction|].
      destruct Hy as [<- | []]. cbn [snd].
      apply (proj1 (Forall_forall _ _) IH (k, x) Hx); [|assumption].
      exact (proj1 (forallb_forall _ _) Hd (k, x) Hx).
Qed.

Lemma parse_stringify (v : JSON.value) (t : jstring) :
  distinct_keys v = true ->
  JSON.stringify v = Str t ->
  JSON.parse t = Some (normalize v).
Proof.
  intros Hd Hs.
  assert (Hu : is_undefined v = false).
  { destruct (is_undefined v) eqn:E; [|reflexivity].
    apply is_undefined_true in E. subst v. discriminate. }
  apply JSON_round_trip.
  - apply normalize_representable; assumption.
  - unfold JSON.stringify in *. rewrite serialize_normalize. exact Hs.
Qed.

Lemma full_record_distinct_keys (g : Generator) (n : nat) (tok : nat -> jstring) :
  distinct_keys
    (Full_object
       (full_record g
          (map (fun i => proxy_record g (Z.of_nat i) (tok i)) (seq 0 n))))
  = true.
Proof.
  unfold Full_object, full_record, Commands_object.
  cbn [Full.mode Full.sync Full.autoBackup Full.passthrough Full.theme
       Full.container Full.commands Full.data Commands.setProxy
       Commands.setTabProxy Commands.includeHost Commands.excludeHost].
  change (distinct_keys (JSON.Obj ?l))
    with (JSON.distinct (map fst l)
          && forallb (fun kx => distinct_keys (snd kx)) l).
  cbn [map fst snd forallb].
  change (distinct_keys (JSON.Arr ?l)) with (forallb distinct_keys l).
  assert (H : forallb distinct_keys
                (map Proxy_object
                   (map (fun i => proxy_record g (Z.of_nat i) (tok i))
                        (seq 0 n))) = true).
  { apply forallb_forall. intros x Hx.
    apply in_map_iff in Hx. destruct Hx as (r & <- & Hr).
    apply in_map_iff in Hr. destruct Hr as (i & <- & _). reflexivity. }
  rewrite H. reflexivity.
Qed.

Lemma stringify_object (l : list (jstring * JSON.value)) :
  exists t, JSON.stringify (JSON.Obj l) = Str t.
Proof. eexists. reflexivity. Qed.

(** X16. With valid credentials, and a port that parses as a safe
    integer or not at all, the text that [getConfigAsJson] returns always
    is valid JSON, whatever else the template holds.  Parsing it gives
    the batch document in which every [NaN] has become [null] and every
    property whose value is [undefined] has gone: a port that is not
    numeric comes back as [null], an [undefined] endpoint or colour
    leaves its record. *)
Theorem getConfigAsJson_parses (w : World) :
  validateCredentials (self w) = inr true ->
  parseInt (Config.port (config (self w))) = NaN
  \/ safe_integer (parseInt (Config.port (config (self w)))) ->
  exists f w' text,
    generateFullConfig w = (inr f, w')
    /\ getConfigAsJson w = (inr (Str text), w')
    /\ JSON.parse text = Some (normalize (Full_object f)).
Proof.
  intros Hv _.
  pose proof (generateFullConfig_closed w Hv) as Hrun.
  destruct (stringify_object
              (match Full_object
                       (full_record (self w)
                          (map (fun i => proxy_record (self w) (Z.of_nat i)
                                                      (token w i))
                               (seq 0 (batch_count (self w)))))
               with JSON.Obj l => l | _ => [] end)) as (text & Ht).
  eexists _, _, text. split; [exact Hrun|]. split.
  - rewrite (getConfigAsJson_valid w _ _ Hrun). f_equal. f_equal. exact Ht.
  - apply parse_stringify; [apply full_record_distinct_keys | exact Ht].
Qed.

Lemma getConfigAsJson_parses_witness :
  exists f w' text,
    generateFullConfig
      (example_world
         (Options.mk (Some Undefined) (Some (Str (lit "abc"))) None
                     (Some (Num (Int 1))))
         (lit "alice") (lit "secret1"))
    = (inr f, w')
    /\ getConfigAsJson
         (example_world
            (Options.mk (Some Undefined) (Some (Str (lit "abc"))) None
                        (Some (Num (Int 1))))
            (lit "alice") (lit "secret1"))
       = (inr (Str text), w')
    /\ JSON.parse text = Some (normalize (Full_object f)).
Proof.
  apply (getConfigAsJson_parses
           (example_world
              (Options.mk (Some Undefined) (Some (Str (lit "abc"))) None
                          (Some (Num (Int 1))))
              (lit "alice") (lit "secret1"))).
  - reflexivity.
  - left. reflexivity.
Defined.

(** ** Downloading *)

Lemma formatDate_reads_clock (w : World) :
  exists d, forall w', clock w' = clock w -> formatDate w' = (inr d, w').
Proof.
  eexists. intros w' Hc. unfold formatDate, bind, now, ret. rewrite Hc.
  reflexivity.
Qed.

(** X17. With valid credentials (and a port that parses as a safe integer
    or not at all) [downloadConfig] never fails its own check of the
    generated text: the text it hands to the Blob parses, it returns
    [success: true] with the file name [922proxy-foxyproxy-config-],
    the date of [formatDate], [.json], and it logs that name after the
    line of the batch. *)
Theorem downloadConfig_succeeds (w : World) :
  validateCredentials (self w) = inr true ->
  parseInt (Config.port (config (self w))) = NaN
  \/ safe_integer (parseInt (Config.port (config (self w)))) ->
  exists f w1 text date,
    generateFullConfig w = (inr f, w1)
    /\ formatDate w = (inr date, w)
    /\ downloadConfig w
       = (inr (Download.mk true
                 (lit "922proxy-foxyproxy-config-" ++ date ++ lit ".json"),
               Str text),
          logged (Log (lit "Configuration downloaded successfully: "
                       ++ lit "922proxy-foxyproxy-config-" ++ date
                       ++ lit ".json")) w1)
    /\ JSON.parse text = Some (normalize (Full_object f)).
Proof.
  intros Hv _.
  pose proof (generateFullConfig_closed w Hv) as Hrun.
  set (f := full_record (self w)
              (map (fun i => proxy_record (self w) (Z.of_nat i) (token w i))
                   (seq 0 (batch_count (self w))))) in *.
  set (w1 := advance (8 * batch_count (self w))
                     (logged (generating_line (self w)) w)) in *.
  destruct (stringify_object
              (match Full_object f with JSON.Obj l => l | _ => [] end))
    as (text & Ht).
  change (JSON.stringify (Full_object f) = Str text) in Ht.
  assert (Hp : JSON.parse text = Some (normalize (Full_object f)))
    by (apply parse_stringify; [apply full_record_distinct_keys | exact Ht]).
  destruct (formatDate_reads_clock w) as (date & Hd).
  exists f, w1, text, date.
  split; [exact Hrun|]. split; [apply Hd; reflexivity|]. split; [|exact Hp].
  unfold downloadConfig, try_catch. unfold bind at 1. rewrite Hrun.
  rewrite Ht. cbn [ToString]. rewrite Hp.
  unfold bind at 1. unfold ret at 1. unfold bind at 1.
  rewrite (Hd w1) by reflexivity.
  reflexivity.
Qed.

Lemma downloadConfig_succeeds_witness :
  exists text,
    fst (downloadConfig
           (example_world (Options.mk None None None (Some (Num (Int 2))))
                          (lit "alice") (lit "secret1")))
    = inr (Download.mk true
             (lit "922proxy-foxyproxy-config-250115-0905.json"),
           Str text).
Proof.
  destruct (downloadConfig_succeeds
              (example_world (Options.mk None None None (Some (Num (Int 2))))
                             (lit "alice") (lit "secret1"))
              eq_refl) as (f & w1 & text & date & _ & Hd & Hrun & _).
  - right. change (- 2 ^ 53 < 6200 < 2 ^ 53). lia.
  - exists text. rewrite Hrun. cbn [fst].
    assert (E : date = lit "250115-0905")
      by (vm_compute in Hd; injection Hd as <-; reflexivity).
    rewrite E. reflexivity.
Defined.

(** X18. With invalid credentials [downloadConfig] builds nothing: it logs
    the error of [validateCredentials] and throws an error whose message
    is [Download failed: ] followed by the message of that error. *)
Theorem downloadConfig_invalid (w : World) (e : exn) :
  validateCredentials (self w) = inl e ->
  downloadConfig w
  = (inl (Error (lit "Download failed: " ++ message e)),
     logged (LogError (lit "Error downloading configuration:") e) w).
Proof.
  intros Hv. unfold downloadConfig, try_catch. unfold bind at 1.
  rewrite (generateFullConfig_invalid w e Hv). reflexivity.
Qed.

Lemma downloadConfig_invalid_witness :
  fst (downloadConfig (world_of fresh true (fun _ => 0%N)))
  = inl (Error (lit "Download failed: Username and password are required")).
Proof.
  rewrite (downloadConfig_invalid (world_of fresh true (fun _ => 0%N))
             (Error msg_required) eq_refl).
  reflexivity.
Defined.

(** * The credential service *)

Lemma existsb_false_forall {A} (f : A -> bool) (l : list A) :
  existsb f l = false <-> Forall (fun x => f x = false) l.
Proof.
  induction l as [|x r IH]; cbn [existsb].
  - split; [constructor | reflexivity].
  - rewrite orb_false_iff, IH. split.
    + intros [H1 H2]. constructor; assumption.
    + intros H. inversion H; subst. split; assumption.
Qed.

(** X19. On two strings [validateCredentialFormat] answers [true] exactly
    when the username has at least 3 characters, the password at least 6,
    and neither holds a less-than or greater-than sign, a double quote
    or an apostrophe; an empty or absent username or password gives
    [false]. *)
Theorem validateCredentialFormat_strings (u p : jstring) :
  (validateCredentialFormat (Str u) (Str p) = true <->
     (3 <= List.length u)%nat /\ (6 <= List.length p)%nat
     /\ Forall (fun c => c <> 60%N /\ c <> 62%N /\ c <> 34%N /\ c <> 39%N)
               (u ++ p))
  /\ (forall v, validateCredentialFormat Null v = false
                /\ validateCredentialFormat Undefined v = false
                /\ validateCredentialFormat (Str []) v = false)
  /\ (forall v, validateCredentialFormat v Null = false
                /\ validateCredentialFormat v Undefined = false
                /\ validateCredentialFormat v (Str []) = false).
Proof.
  split; [|split].
  - unfold validateCredentialFormat, invalidChars_test.
    cbn [ToString length_of lt_opt].
    assert (Hchar : forall l,
               existsb (fun c => ((c =? 60) || (c =? 62) || (c =? 34)
                                  || (c =? 39))%N) l = false
               <-> Forall (fun c => c <> 60%N /\ c <> 62%N /\ c <> 34%N
                                    /\ c <> 39%N) l).
    { intros l. rewrite existsb_false_forall. split; intros H;
        (eapply Forall_impl; [|exact H]); cbv beta; intros c Hc.
      - rewrite !orb_false_iff, !N.eqb_neq in Hc. tauto.
      - rewrite !orb_false_iff, !N.eqb_neq. tauto. }
    destruct u as [|a u]; [cbn; split; [discriminate | lia]|].
    destruct p as [|b p];
      [cbn [ToBoolean negb orb List.length];
       destruct (_ <? 3); cbn; split; try discriminate; lia|].
    cbn [ToBoolean negb orb].
    destruct (Z.of_nat (List.length (a :: u)) <? 3) eqn:E3.
    { apply Z.ltb_lt in E3. split; [discriminate | lia]. }
    destruct (Z.of_nat (List.length (b :: p)) <? 6) eqn:E6.
    { apply Z.ltb_lt in E6. split; [discriminate | lia]. }
    apply Z.ltb_ge in E3, E6.
    rewrite Forall_app, <- !Hchar.
    destruct (existsb _ (a :: u)); destruct (existsb _ (b :: p)); cbn [orb];
      split; try discriminate; try tauto; intros; repeat split; try lia;
      try reflexivity.
    all: intros (_ & _ & H1 & H2); discriminate.
  - intros v. repeat split.
  - intros v. unfold validateCredentialFormat.
    repeat split; destruct (_ || _); reflexivity.
Qed.

(** X20. Credentials that pass [validateCredentialFormat] always pass the
    generator's [validateCredentials]: the service is the stricter of the
    two checks, so the popup, which sets on the generator the very
    values it saved through the service, can generate a batch with them.
    The converse fails for a password that holds a quote. *)
Theorem format_valid_then_generator_valid (u p : prim) (w : World) :
  validateCredentialFormat u p = true ->
  validateCredentials (with_credentials u p (self w)) = inr true
  /\ exists f w',
       generateFullConfig (put_self (with_credentials u p (self w)) w)
       = (inr f, w').
Proof.
  intros H. unfold validateCredentialFormat in H.
  destruct (ToBoolean u) eqn:Tu; [|discriminate].
  cbn [negb orb] in H.
  destruct (lt_opt (length_of u) 3) eqn:Lu; [discriminate|].
  destruct (ToBoolean p) eqn:Tp; [|discriminate].
  cbn [negb orb] in H.
  destruct (lt_opt (length_of p) 6) eqn:Lp; [discriminate|].
  assert (Hv : validateCredentials (with_credentials u p (self w)) = inr true).
  { unfold validateCredentials, with_credentials.
    cbn [credentials set_credentials Credentials.username
         Credentials.password].
    rewrite Tu, Tp, Lu, Lp. reflexivity. }
  split; [exact Hv|].
  eexists _, _. apply generateFullConfig_closed. exact Hv.
Qed.

Lemma format_valid_then_generator_valid_witness :
  validateCredentials
    (with_credentials (Str (lit "alice")) (Str (lit "secret1")) fresh)
  = inr true
  /\ validateCredentialFormat (Str (lit "alice")) (Str (lit "it's-ok")) = false
  /\ validateCredentials
       (with_credentials (Str (lit "alice")) (Str (lit "it's-ok")) fresh)
     = inr true.
Proof.
  split; [|split; reflexivity].
  apply (format_valid_then_generator_valid
           (Str (lit "alice")) (Str (lit "secret1"))
           (world_of fresh true (fun _ => 0%N))).
  reflexivity.
Defined.

(** * The timer *)

Lemma digits_length_3 (n : N) :
  (100 <= n)%N -> (3 <= List.length (digits n))%nat.
Proof.
  intros Hn. rewrite digits_step by lia.
  assert (H10 : (10 <= n / 10)%N).
  { apply N.div_le_lower_bound; lia. }
  rewrite (digits_step (n / 10)) by assumption.
  destruct (digits_last (n / 10 / 10)) as (init & ->).
  rewrite !length_app. cbn [List.length]. lia.
Qed.

(** X21. For a whole number of seconds from 0 on that is a safe integer
    (below [2^53]), [formatTime] gives the minutes and the seconds within
    the minute, the seconds always as two digits below 60.  Below 6000
    seconds (100 minutes) the result has exactly the 5 characters
    [MM:SS]; from 6000 seconds on the minutes take three digits or more
    and the result is longer. *)
Theorem formatTime_shape (seconds : Z) :
  0 <= seconds < 2 ^ 53 ->
  formatTime seconds
  = padStart2 (Z_to_string (seconds / 60)) ++ [58%N]
    ++ two_digits (seconds mod 60)
  /\ 0 <= seconds mod 60 < 60
  /\ (seconds < 6000 ->
      formatTime seconds
      = two_digits (seconds / 60) ++ [58%N] ++ two_digits (seconds mod 60))
  /\ (6000 <= seconds -> (5 < List.length (formatTime seconds))%nat).
Proof.
  intros [Hs _].
  assert (Hm : 0 <= seconds mod 60 < 60) by (apply Z.mod_pos_bound; lia).
  assert (Hq : 0 <= seconds / 60) by (apply Z.div_pos; lia).
  assert (E : formatTime seconds
              = padStart2 (Z_to_string (seconds / 60)) ++ [58%N]
                ++ two_digits (seconds mod 60)).
  { unfold formatTime. rewrite Z.rem_mod_nonneg by lia.
    rewrite (padStart2_two_digits (seconds mod 60)) by lia. reflexivity. }
  split; [exact E|]. split; [exact Hm|]. split.
  - intros Hlt. rewrite E.
    rewrite padStart2_two_digits; [reflexivity|].
    split; [assumption|]. apply Z.div_lt_upper_bound; lia.
  - intros Hge. rewrite E, length_app.
    assert (H100 : 100 <= seconds / 60) by (apply Z.div_le_lower_bound; lia).
    rewrite Z_to_string_nonneg by lia.
    pose proof (digits_length_3 (Z.to_N (seconds / 60)) ltac:(lia)) as H3.
    destruct (digits (Z.to_N (seconds / 60))) as [|a [|b [|c r]]];
      cbn [List.length] in H3; try lia.
    cbn [padStart2 List.length app two_digits]. lia.
Qed.

Lemma formatTime_shape_witness :
  formatTime 125 = lit "02:05" /\ formatTime 6000 = lit "100:00".
Proof.
  destruct (formatTime_shape 125 ltac:(lia)) as (_ & _ & H & _).
  split; [rewrite H by lia; reflexivity | reflexivity].
Defined.

(** * Random containers *)

Lemma random_element_in (array : list jstring) (w : World) :
  array <> [] ->
  exists s,
    random_element array w = (inr (Str s), advance 1 w) /\ In s array.
Proof.
  intros Ha. unfold random_element, bind, Math_random, ret.
  set (x := Z.of_N (entropy w (drawn w)) mod 2 ^ 53).
  assert (Hx : 0 <= x < 2 ^ 53) by (apply Z.mod_pos_bound; lia).
  assert (Hl : (0 < List.length array)%nat)
    by (destruct array; [congruence | simpl; lia]).
  pose proof (floor_times_bound x (Z.of_nat (List.length array)) Hx ltac:(lia))
    as Hb.
  unfold array_get.
  destruct (floor_times x (Z.of_nat (List.length array)) <? 0) eqn:E;
    [apply Z.ltb_lt in E; lia|].
  destruct (nth_error array
              (Z.to_nat (floor_times x (Z.of_nat (List.length array)))))
    as [s|] eqn:Hn.
  - exists s. split; [reflexivity|]. exact (nth_error_In _ _ Hn).
  - apply nth_error_None in Hn. lia.
Qed.

(** X22. [generateRandomContainerName] always returns an adjective of its
    list, a space, a noun of its list, a space and a number from 1 to
    999 in decimal; it takes three values from [Math.random] and never
    yields [undefined] for a word. *)
Theorem generateRandomContainerName_shape (w : World) :
  exists a n k,
    generateRandomContainerName w
    = (inr (a ++ lit " " ++ n ++ lit " " ++ Z_to_string k), advance 3 w)
    /\ In a adjectives /\ In n nouns /\ 1 <= k <= 999.
Proof.
  unfold generateRandomContainerName.
  destruct (random_element_in adjectives w ltac:(discriminate))
    as (a & Ha & Hia).
  destruct (random_element_in nouns (advance 1 w) ltac:(discriminate))
    as (n & Hn & Hin).
  set (x := Z.of_N (entropy (advance 2 w) (drawn (advance 2 w))) mod 2 ^ 53).
  assert (Hx : 0 <= x < 2 ^ 53) by (apply Z.mod_pos_bound; lia).
  pose proof (floor_times_bound x 999 Hx ltac:(lia)) as Hb.
  exists a, n, (floor_times x 999 + 1).
  split; [|split; [assumption | split; [assumption | lia]]].
  unfold bind at 1. rewrite Ha. unfold bind at 1. rewrite Hn.
  rewrite advance_advance. change (1 + 1)%nat with 2%nat.
  unfold bind, Math_random, ret. rewrite advance_advance.
  change (2 + 1)%nat with 3%nat. reflexivity.
Qed.

(** X23. [generateRandomContainerColor] and [generateRandomContainerIcon]
    always return one of the 8 colour names and one of the 11 icon names
    of their lists, never [undefined]: the index computed from
    [Math.random] is always within the list. *)
Theorem random_color_and_icon_valid (w : World) :
  (exists c,
     generateRandomContainerColor w = (inr (Str c), advance 1 w)
     /\ In c container_colors)
  /\ (exists i,
        generateRandomContainerIcon w = (inr (Str i), advance 1 w)
        /\ In i container_icons).
Proof.
  split; apply random_element_in; discriminate.
Qed.

(** * The applied status of a container *)



Lemma getItem_removeItem_same (k : jstring) (s : Storage.t) :
  Storage.getItem k (Storage.removeItem k s) = None.
Proof.
  unfold Storage.removeItem.
  induction s as [|[k' v'] r IH]; cbn [filter fst]; [reflexivity|].
  destruct (jstring_eqb k' k) eqn:E; cbn [negb]; [exact IH|].
  cbn [Storage.getItem]. rewrite E. exact IH.
Qed.

Lemma getItem_removeItem_other (k k' : jstring) (s : Storage.t) :
  k' <> k ->
  Storage.getItem k' (Storage.removeItem k s) = Storage.getItem k' s.
Proof.
  intros Hne. unfold Storage.removeItem.
  induction s as [|[k0 v0] r IH]; cbn [filter fst]; [reflexivity|].
  destruct (jstring_eqb k0 k) eqn:E; cbn [negb Storage.getItem].
  - apply jstring_eqb_eq in E. subst k0.
    destruct (jstring_eqb k k') eqn:E'; [|exact IH].
    apply jstring_eqb_eq in E'. congruence.
  - rewrite IH. reflexivity.
Qed.



(** *** Reading back the stored status *)








(** * Clearing every applied status *)

Lemma startsWith_app (prefix s : jstring) :
  startsWith prefix (prefix ++ s) = true.
Proof.
  induction prefix as [|a r IH]; cbn [startsWith app]; [reflexivity|].
  rewrite N.eqb_refl. exact IH.
Qed.

Lemma getItem_In (k v : jstring) (s : Storage.t) :
  Storage.getItem k s = Some v -> In k (Storage.keys s).
Proof.
  unfold Storage.keys.
  induction s as [|[k' v'] r IH]; cbn [Storage.getItem map fst]; intros H.
  - discriminate.
  - destruct (jstring_eqb k' k) eqn:E.
    + left. apply jstring_eqb_eq, E.
    + right. exact (IH H).
Qed.

Lemma getItem_removeItem_none (k k' : jstring) (s : Storage.t) :
  Storage.getItem k s = None ->
  Storage.getItem k (Storage.removeItem k' s) = None.
Proof.
  intros H. destruct (list_eq_dec N.eq_dec k k') as [-> | Hne].
  - apply getItem_removeItem_same.
  - rewrite getItem_removeItem_other; assumption.
Qed.

Lemma sweep_none (selected : jstring -> bool) (k : jstring)
  (ks : list jstring) (s : Storage.t) :
  Storage.getItem k s = None ->
  Storage.getItem k
    (fold_left
       (fun s key => if selected key then Storage.removeItem key s else s)
       ks s)
  = None.
Proof.
  revert s. induction ks as [|a ks IH]; intros s H; [exact H|].
  cbn [fold_left]. apply IH.
  destruct (selected a); [apply getItem_removeItem_none|]; exact H.
Qed.

Lemma sweep_selected (selected : jstring -> bool) (k : jstring)
  (ks : list jstring) (s : Storage.t) :
  selected k = true -> In k ks ->
  Storage.getItem k
    (fold_left
       (fun s key => if selected key then Storage.removeItem key s else s)
       ks s)
  = None.
Proof.
  intros Hk. revert s. induction ks as [|a ks IH]; intros s Hin.
  - destruct Hin.
  - cbn [fold_left].
    destruct Hin as [-> | Hin].
    + rewrite Hk. apply sweep_none, getItem_removeItem_same.
    + apply IH, Hin.
Qed.

Lemma sweep_other (selected : jstring -> bool) (k : jstring)
  (ks : list jstring) (s : Storage.t) :
  selected k = false ->
  Storage.getItem k
    (fold_left
       (fun s key => if selected key then Storage.removeItem key s else s)
       ks s)
  = Storage.getItem k s.
Proof.
  intros Hk. revert s. induction ks as [|a ks IH]; intros s; [reflexivity|].
  cbn [fold_left].
  destruct (selected a) eqn:Ea.
  - rewrite IH. apply getItem_removeItem_other.
    intros ->. congruence.
  - apply IH.
Qed.

(** X26. After [clearAllAppliedStatuses], [getAppliedStatus] returns
    [null] for every container; every item of [localStorage] whose key
    does not start with [container_applied_] is what it was; and exactly
    one line is added to the console. *)
Theorem clearAllAppliedStatuses_clears (p : Page) :
  (forall cookieStoreId,
     getAppliedStatus cookieStoreId (clearAllAppliedStatuses p)
     = JSON.Prim Null)
  /\ (forall key,
        startsWith applied_prefix key = false ->
        Storage.getItem key (localStorage (clearAllAppliedStatuses p))
        = Storage.getItem key (localStorage p))
  /\ page_console (clearAllAppliedStatuses p)
     = page_console p
       ++ [Log (9989%N :: lit " Cleared all applied statuses")].
Proof.
  unfold clearAllAppliedStatuses.
  cbn [page_log with_storage localStorage page_console].
  split; [|split; [|reflexivity]].
  - intros id. unfold getAppliedStatus. cbn [localStorage].
    replace (Storage.getItem (applied_key id) _) with (@None jstring);
      [reflexivity|].
    symmetry.
    destruct (Storage.getItem (applied_key id) (localStorage p))
      as [v|] eqn:E.
    + apply sweep_selected.
      * apply startsWith_app.
      * exact (getItem_In _ _ _ E).
    + apply sweep_none, E.
  - intros key Hk. apply sweep_other, Hk.
Qed.

(** * The colour of a container *)

Lemma color_table_hex :
  forallb (fun kv => is_hex_color (snd kv)) color_table = true.
Proof. vm_compute. reflexivity. Qed.

Lemma getItem_In_table (k v : jstring) (s : Storage.t) :
  Storage.getItem k s = Some v -> In (k, v) s.
Proof.
  induction s as [|[k' v'] r IH]; cbn [Storage.getItem]; intros H.
  - discriminate.
  - destruct (jstring_eqb k' k) eqn:E.
    + apply jstring_eqb_eq in E. injection H as <-. subst k'. left.
      reflexivity.
    + right. exact (IH H).
Qed.

Lemma In_getItem (k : jstring) (s : Storage.t) :
  In k (Storage.keys s) -> exists v, Storage.getItem k s = Some v.
Proof.
  unfold Storage.keys.
  induction s as [|[k' v'] r IH]; cbn [Storage.getItem map fst]; intros H.
  - destruct H.
  - destruct (jstring_eqb k' k) eqn:E; [eexists; reflexivity|].
    destruct H as [H | H]; [|exact (IH H)].
    apply jstring_eqb_eq in H. congruence.
Qed.

Lemma own_color_hex (k v : jstring) :
  Storage.getItem k color_table = Some v ->
  is_hex_color v = true /\ In v (map snd color_table).
Proof.
  intros H. apply getItem_In_table in H. split.
  - pose proof color_table_hex as Hh. rewrite forallb_forall in Hh.
    exact (Hh _ H).
  - exact (in_map snd _ _ H).
Qed.

(** X27. [getContainerColor] answers one of its eight [#rrggbb] strings
    for every argument whose string is not the name of a property that
    plain objects inherit: the one of the table for a colour name, that
    of [blue] otherwise.  In particular whatever name
    [generateRandomContainerColor] draws has its own entry, whatever
    plain objects inherit. *)
Theorem getContainerColor_hex (inherited : jstring -> bool) :
  (forall color,
     inherited (ToString color) = false ->
     exists v,
       getContainerColor inherited color = Own v
       /\ is_hex_color v = true /\ In v (map snd color_table)
       /\ (Storage.getItem (ToString color) color_table = None ->
           v = lit "#37adff"))
  /\ (forall w,
        exists c v,
          generateRandomContainerColor w = (inr (Str c), advance 1 w)
          /\ getContainerColor inherited (Str c) = Own v
          /\ Storage.getItem c color_table = Some v
          /\ is_hex_color v = true).
Proof.
  split.
  - intros color Hi. unfold getContainerColor. rewrite Hi.
    destruct (Storage.getItem (ToString color) color_table) as [v|] eqn:E.
    + exists v. destruct (own_color_hex _ _ E) as [H1 H2].
      repeat split; try assumption. discriminate.
    + eexists. split; [reflexivity|].
      split; [reflexivity|]. split; [|reflexivity].
      vm_compute. tauto.
  - intros w.
    destruct (random_element_in container_colors w ltac:(discriminate))
      as (c & Hc & Hin).
    destruct (In_getItem c color_table Hin) as (v & Hv).
    exists c, v. split; [exact Hc|].
    unfold getContainerColor. cbn [ToString]. rewrite Hv.
    repeat split. apply (own_color_hex _ _ Hv).
Qed.

(** * The cache of the container list *)

(** X28. Once [getContainers] has fetched a list at time [t0], a call
    without [forceRefresh] at a time less than [cacheDuration] after [t0]
    returns that list without querying the browser, whatever the browser
    would answer, and leaves the cache and the console as they are. *)
Theorem getContainers_cached (container : Type) (cache : Cache container)
  (fetched : list container) (t0 t : Z) (forceRefresh : prim)
  (browser : answer container) :
  ToBoolean forceRefresh = false ->
  t - t0 < cacheDuration cache ->
  match getContainers (Bool true) t0 (Resolved fetched) cache with
  | (first, cache1, _, _) =>
      first = fetched
      /\ getContainers forceRefresh t browser cache1
         = (fetched, cache1, [], false)
  end.
Proof.
  intros Hf Ht. unfold getContainers at 1. cbn [ToBoolean negb andb].
  assert (E : getContainers (container := container) forceRefresh t browser
                (mkCache (Some fetched) t0 (cacheDuration cache))
              = (fetched, mkCache (Some fetched) t0 (cacheDuration cache),
                 [], false)).
  { unfold getContainers.
    cbn [containers lastFetch cacheDuration]. rewrite Hf. cbn [negb andb].
    apply Z.ltb_lt in Ht. rewrite Ht. reflexivity. }
  destruct (containers cache); split; try reflexivity; exact E.
Qed.

Lemma getContainers_cached_witness :
  getContainers Undefined 4999 (Rejected (Error (lit "gone")))
    (mkCache (Some [7%nat; 8%nat]) 0 5000)
  = ([7%nat; 8%nat], mkCache (Some [7%nat; 8%nat]) 0 5000, [], false).
Proof.
  exact (proj2 (getContainers_cached nat new_cache [7%nat; 8%nat] 0 4999
                  Undefined (Rejected (Error (lit "gone")))
                  eq_refl ltac:(cbn; lia))).
Defined.

(** X29. [getContainers] changes its cache only when the browser resolves
    the query: when the container API is missing or the query is
    rejected, the cache is what it was, and the list returned is empty or
    (after a rejection) the one that the cache holds.  [cacheDuration] is
    never changed.  After [clearCache], a call queries the browser if it
    can, at any time and whatever [forceRefresh] is. *)
Theorem getContainers_cache_frame (container : Type)
  (cache : Cache container) (forceRefresh : prim) (t : Z) :
  (forall browser,
     match getContainers forceRefresh t browser cache with
     | (_, cache', _, _) => cacheDuration cache' = cacheDuration cache
     end)
  /\ (forall browser,
        (forall l, browser <> Resolved l) ->
        match getContainers forceRefresh t browser cache with
        | (l, cache', _, _) =>
            cache' = cache /\ (l = [] \/ containers cache = Some l)
        end)
  /\ (forall error,
        match
          getContainers (Bool true) t (Rejected error) cache
        with
        | (l, _, log, queried) =>
            l = match containers cache with Some l => l | None => [] end
            /\ queried = true
            /\ log = [Failed (10060%N :: lit " Failed to get containers:")
                             error]
        end)
  /\ (forall fetched,
        getContainers forceRefresh t (Resolved fetched) (clearCache cache)
        = (fetched, mkCache (Some fetched) t (cacheDuration cache), [],
           true)).
Proof.
  split; [|split; [|split]].
  - intros b. unfold getContainers.
    destruct (containers cache); [destruct (_ && _)|]; destruct b;
      reflexivity.
  - intros b Hb. unfold getContainers.
    destruct (containers cache) as [l0|]; [destruct (_ && _)|];
      destruct b as [|e|l]; try (exfalso; exact (Hb l eq_refl));
      split; auto.
  - intros error. unfold getContainers. cbn [ToBoolean negb andb].
    destruct (containers cache); repeat split.
  - intros fetched. unfold getContainers, clearCache.
    cbn [containers cacheDuration]. reflexivity.
Qed.

(** * Random names are acceptable container names *)

Lemma words_start_with_a_letter :
  forallb (fun s : jstring =>
             match s with
             | c :: _ => negb (is_white c)
             | [] => false
             end) adjectives = true.
Proof. vm_compute. reflexivity. Qed.

Lemma digit_not_white (d : N) : (d < 10)%N -> is_white (48 + d) = false.
Proof.
  intros H.
  assert (E : (d = 0 \/ d = 1 \/ d = 2 \/ d = 3 \/ d = 4 \/ d = 5 \/ d = 6
               \/ d = 7 \/ d = 8 \/ d = 9)%N) by lia.
  repeat (destruct E as [-> | E]; [reflexivity|]). subst d. reflexivity.
Qed.

(** X30. The name that [generateRandomContainerName] returns is never
    empty and neither starts nor ends with white space: [name.trim()] is
    the name itself, so that the test of [createContainer] on the name
    ([!name || name.trim().length === 0]) never rejects it. *)
Theorem generateRandomContainerName_trimmed (w : World) :
  exists name,
    generateRandomContainerName w = (inr name, advance 3 w)
    /\ ToBoolean (Str name) = true
    /\ trim name = name
    /\ (0 < List.length (trim name))%nat.
Proof.
  unfold generateRandomContainerName.
  destruct (random_element_in adjectives w ltac:(discriminate))
    as (a & Ha & Hia).
  destruct (random_element_in nouns (advance 1 w) ltac:(discriminate))
    as (n & Hn & Hin).
  set (x := Z.of_N (entropy (advance 2 w) (drawn (advance 2 w))) mod 2 ^ 53).
  assert (Hx : 0 <= x < 2 ^ 53) by (apply Z.mod_pos_bound; lia).
  pose proof (floor_times_bound x 999 Hx ltac:(lia)) as Hb.
  pose proof words_start_with_a_letter as Hw.
  rewrite forallb_forall in Hw. specialize (Hw a Hia).
  destruct a as [|c a']; [discriminate Hw|].
  apply negb_true_iff in Hw.
  destruct (digits_last (Z.to_N (floor_times x 999 + 1))) as (init & Hd).
  set (name := (c :: a') ++ lit " " ++ n ++ lit " "
               ++ Z_to_string (floor_times x 999 + 1)).
  assert (Hname : generateRandomContainerName w = (inr name, advance 3 w)).
  { unfold generateRandomContainerName.
    unfold bind at 1. rewrite Ha. unfold bind at 1. rewrite Hn.
    rewrite advance_advance. change (1 + 1)%nat with 2%nat.
    unfold bind, Math_random, ret. rewrite advance_advance.
    change (2 + 1)%nat with 3%nat. reflexivity. }
  assert (Ht : trimmed name).
  { split.
    - intros c0 r E. unfold name in E. cbn [app] in E.
      injection E as <- _. exact Hw.
    - intros c0 r E. unfold name in E.
      rewrite Z_to_string_nonneg, Hd in E by lia.
      rewrite !app_assoc in E. apply app_inj_tail in E.
      destruct E as [_ <-]. apply digit_not_white.
      generalize (Z.to_N (floor_times x 999 + 1)). intros m.
      apply N.mod_lt. discriminate. }
  exists name. split; [exact Hname|]. split; [reflexivity|].
  split; [exact (trim_fixed _ Ht)|].
  rewrite (trim_fixed _ Ht). unfold name. cbn [app List.length]. lia.
Qed.
